(** * A shallow embedding of [py_uci.py], the UCI protocol shell

    The engine class [UCIEngine] of [py_uci.py] is modelled as a record of
    its attributes together with the trace of the effects its dispatch
    thread performs (lines written to stdout, logger calls, tracebacks,
    thread operations).  Every method becomes a function on that record.
    The chess rules ([chess.Board], [chess.Move]) are an external library;
    they enter as the class [RulesProvider]. *)

From Stdlib Require Import String Ascii List ZArith NArith QArith Bool Lia Lqa.
From Stdlib Require Import DecimalString.
Import ListNotations.
Close Scope Q_scope.
Open Scope string_scope.
Open Scope list_scope.

(** ** Python strings

    A [str] is held as its UTF-8 encoding: an [ascii] is one byte, and a
    character above U+007F takes two to four of them.  Equality,
    concatenation and joining of [str] values are those of the encodings.
    The white space of [str.strip()] and [str.split()] is the set of
    characters for which [str.isspace()] holds. *)

Module Str.

(** White space of one byte: U+0009..U+000D, U+001C..U+001F and U+0020. *)
Definition space1 (c1 : ascii) : bool :=
  let n := nat_of_ascii c1 in
  ((9 <=? n)%nat && (n <=? 13)%nat) || ((28 <=? n)%nat && (n <=? 32)%nat).

(** White space of two bytes: U+0085 (C2 85) and U+00A0 (C2 A0). *)
Definition space2 (c1 c2 : ascii) : bool :=
  let n1 := nat_of_ascii c1 in
  let n2 := nat_of_ascii c2 in
  (n1 =? 194)%nat && ((n2 =? 133)%nat || (n2 =? 160)%nat).

(** White space of three bytes: U+1680 (E1 9A 80), U+2000..U+200A
    (E2 80 80 .. E2 80 8A), U+2028 and U+2029 (E2 80 A8, E2 80 A9), U+202F
    (E2 80 AF), U+205F (E2 81 9F) and U+3000 (E3 80 80). *)
Definition space3 (c1 c2 c3 : ascii) : bool :=
  let n1 := nat_of_ascii c1 in
  let n2 := nat_of_ascii c2 in
  let n3 := nat_of_ascii c3 in
  ((n1 =? 225)%nat && (n2 =? 154)%nat && (n3 =? 128)%nat)
  || ((n1 =? 226)%nat && (n2 =? 128)%nat
      && (((128 <=? n3)%nat && (n3 <=? 138)%nat)
          || (n3 =? 168)%nat || (n3 =? 169)%nat || (n3 =? 175)%nat))
  || ((n1 =? 226)%nat && (n2 =? 129)%nat && (n3 =? 159)%nat)
  || ((n1 =? 227)%nat && (n2 =? 128)%nat && (n3 =? 128)%nat).

(** The string starts with a white space character. *)
Definition starts_space (s : string) : bool :=
  match s with
  | EmptyString => false
  | String c1 s1 =>
      space1 c1
      || match s1 with
         | EmptyString => false
         | String c2 s2 =>
             space2 c1 c2
             || match s2 with
                | EmptyString => false
                | String c3 _ => space3 c1 c2 c3
                end
         end
  end.

(** Every character of the string is white space; true of the empty
    string. *)
Fixpoint blank (s : string) : bool :=
  match s with
  | EmptyString => true
  | String c1 s1 =>
      if space1 c1 then blank s1
      else match s1 with
           | EmptyString => false
           | String c2 s2 =>
               if space2 c1 c2 then blank s2
               else match s2 with
                    | EmptyString => false
                    | String c3 s3 =>
                        if space3 c1 c2 c3 then blank s3 else false
                    end
           end
  end.

(** [s.split()]: the maximal runs of characters that are not white space. *)
Fixpoint split (s : string) : list string :=
  match s with
  | EmptyString => []
  | String c1 s1 =>
      let tail := split s1 in
      let word :=
        if starts_space s1 then String c1 EmptyString :: tail
        else match tail with
             | w :: ws => String c1 w :: ws
             | [] => [String c1 EmptyString]
             end in
      if space1 c1 then tail
      else match s1 with
           | EmptyString => word
           | String c2 s2 =>
               if space2 c1 c2 then split s2
               else match s2 with
                    | EmptyString => word
                    | String c3 s3 =>
                        if space3 c1 c2 c3 then split s3 else word
                    end
           end
  end.

Fixpoint lstrip (s : string) : string :=
  match s with
  | EmptyString => EmptyString
  | String c1 s1 =>
      if space1 c1 then lstrip s1
      else match s1 with
           | EmptyString => s
           | String c2 s2 =>
               if space2 c1 c2 then lstrip s2
               else match s2 with
                    | EmptyString => s
                    | String c3 s3 =>
                        if space3 c1 c2 c3 then lstrip s3 else s
                    end
           end
  end.

(** The string up to where only white space follows. *)
Fixpoint rstrip (s : string) : string :=
  match s with
  | EmptyString => EmptyString
  | String c s' => if blank s then EmptyString else String c (rstrip s')
  end.

(** [s.strip()] *)
Definition strip (s : string) : string := rstrip (lstrip s).

(** [" ".join(l)] *)
Definition join (l : list string) : string := String.concat " " l.

(** [s.startswith(p)] *)
Definition startswith (p s : string) : bool := String.prefix p s.

(** Truthiness of a string: non-empty. *)
Definition truthy (s : string) : bool :=
  match s with EmptyString => false | _ => true end.

(** The code points at which a run of ten decimal digits, zero to nine,
    starts: the characters [int] reads as digits (Unicode 14, the table of
    CPython 3.11). *)
Definition decimal_starts : list N :=
  [48; 1632; 1776; 1984; 2406; 2534; 2662; 2790; 2918; 3046; 3174; 3302;
    3430; 3558; 3664; 3792; 3872; 4160; 4240; 6112; 6160; 6470; 6608; 6784;
    6800; 6992; 7088; 7232; 7248; 42528; 43216; 43264; 43472; 43504; 43600;
    44016; 65296; 66720; 68912; 69734; 69872; 69942; 70096; 70384; 70736;
    70864; 71248; 71360; 71472; 71904; 72016; 72784; 73040; 73120; 92768;
    92864; 93008; 120782; 120792; 120802; 120812; 120822; 123200; 123632;
    125264; 130032]%N.

(** The digit a code point stands for. *)
Definition decimal (cp : N) : option Z :=
  match find (fun st => (st <=? cp)%N && (cp <=? st + 9)%N) decimal_starts with
  | Some st => Some (Z.of_N (cp - st))
  | None => None
  end.

(** The digits of an [int] literal, read byte by byte: decimal digits of
    any script, a single underscore allowed between two digits.  [cp] and
    [more] hold the character being decoded and the number of its bytes
    still to come; [n] counts the digits. *)
Fixpoint digits (s : string) (acc : Z) (n : nat) (after_digit : bool)
         (cp : N) (more : nat) : option (Z * nat) :=
  match s with
  | EmptyString =>
      match more with
      | O => if after_digit then Some (acc, n) else None
      | S _ => None
      end
  | String c s' =>
      let b := N_of_ascii c in
      match more with
      | S k =>
          let cp' := (cp * 64 + (b - 128))%N in
          match k with
          | S _ => digits s' acc n after_digit cp' k
          | O =>
              match decimal cp' with
              | Some d => digits s' (10 * acc + d)%Z (S n) true 0%N 0
              | None => None
              end
          end
      | O =>
          if (b <? 128)%N then
            match decimal b with
            | Some d => digits s' (10 * acc + d)%Z (S n) true 0%N 0
            | None =>
                if (b =? 95)%N && after_digit
                then digits s' acc n false 0%N 0
                else None
            end
          else if (b <? 194)%N then None
          else if (b <? 224)%N then digits s' acc n after_digit (b - 192)%N 1
          else if (b <? 240)%N then digits s' acc n after_digit (b - 224)%N 2
          else digits s' acc n after_digit (b - 240)%N 3
      end
  end.

(** The digits after the sign; more than 4300 of them are refused, the
    default limit of the interpreter. *)
Definition unsigned (s : string) : option Z :=
  match digits s 0%Z 0 false 0%N 0 with
  | Some (z, n) => if (4300 <? n)%nat then None else Some z
  | None => None
  end.

(** [int(s)] on a token, which holds no white space; [None] is
    [ValueError]. *)
Definition int (s : string) : option Z :=
  match s with
  | String "+" r => unsigned r
  | String "-" r => option_map Z.opp (unsigned r)
  | _ => unsigned s
  end.

(** The line terminator of the lines [readline] returns. *)
Definition nl : string := String (ascii_of_nat 10) EmptyString.

(** [str(z)] for an [int]. *)
Definition of_Z (z : Z) : string := NilZero.string_of_int (Z.to_int z).

End Str.

(** ** Python values stored in option records and info dictionaries *)

Inductive PyVal : Type :=
| PyNone
| PyInt (z : Z)
| PyStr (s : string).

(** [str(v)], as an f-string renders [v]. *)
Definition py_str (v : PyVal) : string :=
  match v with
  | PyNone => "None"
  | PyInt z => Str.of_Z z
  | PyStr s => s
  end.

(** ** Python dictionaries with string keys

    A [dict] keeps insertion order, and assigning to a present key keeps the
    key's place; [_cmd_uci] iterates over [self.options] in that order. *)

Module Dict.

Definition t (V : Type) := list (string * V).

Fixpoint get {V : Type} (k : string) (d : t V) : option V :=
  match d with
  | [] => None
  | (k', v) :: d' => if String.eqb k k' then Some v else get k d'
  end.

(** [d[k] = v] *)
Fixpoint set {V : Type} (k : string) (v : V) (d : t V) : t V :=
  match d with
  | [] => [(k, v)]
  | (k', v') :: d' =>
      if String.eqb k k' then (k', v) :: d' else (k', v') :: set k v d'
  end.

(** [k in d] *)
Definition mem {V : Type} (k : string) (d : t V) : bool :=
  match get k d with Some _ => true | None => false end.

(** [d.setdefault(k, v)] *)
Definition setdefault {V : Type} (k : string) (v : V) (d : t V) : t V :=
  if mem k d then d else set k v d.

End Dict.

(** ** Option records

    [self.options] maps an option name to a dictionary; [_cmd_uci] reads
    the keys type, default, min, max and var of it, and nothing else.  A
    field is [None] when the key is absent; a present key may hold the
    Python value [None]. *)

Record OptInfo : Type := mkOptInfo {
  opt_type : option PyVal;
  opt_default : option PyVal;
  opt_min : option PyVal;
  opt_max : option PyVal;
  opt_var : option (list PyVal)
}.

(** The literal [{"type": "string", "default": value}] of [_cmd_setoption]
    and [set_option]; [value] is a string or [None]. *)
Definition string_option (value : option string) : OptInfo :=
  {| opt_type := Some (PyStr "string");
     opt_default := Some (match value with Some v => PyStr v | None => PyNone end);
     opt_min := None; opt_max := None; opt_var := None |}.

(** ** Search limits: the dictionary [_parse_go] builds *)

Inductive LimVal : Type :=
| LInt (z : Z)
| LStr (s : string)
| LTrue
| LFloat (q : Q).

Definition Limits := Dict.t LimVal.

(** [bool(v)] *)
Definition lim_truthy (v : LimVal) : bool :=
  match v with
  | LInt z => negb (Z.eqb z 0)
  | LStr s => Str.truthy s
  | LTrue => true
  | LFloat q => negb (Qeq_bool q 0)
  end.

(** The integers that convert to a float are those that round to a finite
    double: the ones below [2^1024 - 2^970 = (2^54 - 1) * 2^970] in absolute
    value. *)
Definition float_limit : Z := Z.shiftl 18014398509481983 970.

Definition fits_float (z : Z) : bool := Z.ltb (Z.abs z) float_limit.

(** [v / 1000.0]; [None] is the [TypeError] of dividing a string, and the
    [OverflowError] of an integer too large to convert to a float. *)
Definition div1000 (v : LimVal) : option Q :=
  match v with
  | LInt z => if fits_float z then Some (inject_Z z / 1000)%Q else None
  | LStr _ => None
  | LTrue => Some (1 / 1000)%Q
  | LFloat q => Some (q / 1000)%Q
  end.

(** ** The chess rules, as [py_uci.py] uses python-chess *)

Class RulesProvider : Type := {
  Board : Type;
  Move : Type;
  (** [chess.Board()], and the position [board.reset()] restores *)
  initial_board : Board;
  (** [chess.Board(fen)]; [None] is the [ValueError] of a bad FEN *)
  board_from_fen : string -> option Board;
  (** [board.copy(stack=False)] *)
  board_copy : Board -> Board;
  (** iteration over [board.legal_moves] *)
  legal_moves : Board -> list Move;
  (** [move in board.legal_moves] *)
  is_legal : Board -> Move -> bool;
  (** [board.push(move)] *)
  push : Board -> Move -> Board;
  (** [board.turn == chess.WHITE] *)
  white_to_move : Board -> bool;
  (** [chess.Move.from_uci(s)]; [None] is the exception of a bad token *)
  move_from_uci : string -> option Move;
  (** [move.uci()], which is also [str(move)] *)
  move_uci : Move -> string
}.

(** The environment of the dispatch thread: whether the worker with a given
    identifier has exited when [th.join(timeout=5.0)] returns. *)
Class Threads : Type := {
  exits_within_bound : nat -> bool
}.

Section Engine.

Context {RP : RulesProvider} {TH : Threads}.

(** ** Info dictionaries handed to the info callback *)

Inductive Score : Type :=
| ScoreDict (cp mate : option PyVal)
| ScoreOther (v : PyVal).

Inductive PvItem : Type :=
| PvMove (m : Move)
| PvVal (v : PyVal).

Inductive Pv : Type :=
| PvList (l : list PvItem)
| PvOther (v : PyVal).

Record Info : Type := mkInfo {
  i_depth : option PyVal;
  i_seldepth : option PyVal;
  i_score : option Score;
  i_nodes : option PyVal;
  i_nps : option PyVal;
  i_pv : option Pv;
  (** seconds *)
  i_time : option Q
}.

(** ** The search function and what it does when called *)

(** What the search function returns: [None], a move, a string, or a tuple
    of at least two items, of which the worker reads the first two. *)
Inductive Item : Type :=
| ItNone
| ItMove (m : Move)
| ItStr (s : string).

Inductive Result : Type :=
| RNone
| RMove (m : Move)
| RStr (s : string)
| RTuple (first second : Item).

Inductive Outcome : Type :=
| Returns (r : Result)
| Raises.

(** One call of the search function: the calls it makes to the info
    callback, each with the clock reading [time.time()] of that call, and
    how it ends. *)
Record Behaviour : Type := mkBehaviour {
  calls : list (Q * Info);
  outcome : Outcome
}.

(** The positional arguments of a call. *)
Inductive PyArg : Type :=
| ArgBoard (b : Board)
| ArgLimits (l : Limits)
| ArgStopEvent
| ArgInfoCallback
| ArgOptions (o : Dict.t OptInfo).

(** A Python callable: the number of positional parameters it requires and
    accepts, and its body. *)
Record SearchFn : Type := mkSearchFn {
  min_params : nat;
  max_params : nat;
  body : list PyArg -> Behaviour
}.

(** Calling with a wrong number of arguments raises [TypeError] before the
    body runs. *)
Definition call (f : SearchFn) (args : list PyArg) : Behaviour :=
  if (min_params f <=? length args)%nat && (length args <=? max_params f)%nat
  then body f args
  else {| calls := []; outcome := Raises |}.

(** [_default_search_fn(board, limits, stop_event, info_callback=None)] *)
Definition default_search_fn : SearchFn :=
  {| min_params := 3; max_params := 4;
     body := fun _ => {| calls := []; outcome := Raises |} |}.

(** ** The engine and the effects of its methods *)

Inductive Event : Type :=
| EvSend (line : string)
| EvLog (msg : string)
| EvTraceback
| EvBoard (b : Board)
| EvStopSet
| EvStopClear
| EvJoin (t : nat) (exited : bool)
| EvSpawn (t : nat) (limits : Limits).

Record Engine : Type := mkEngine {
  name : string;
  author : string;
  search_fn : SearchFn;
  board : Board;
  options : Dict.t OptInfo;
  (** the handle [self.search_thread]; workers are numbered as spawned *)
  search_thread : option nat;
  stop_event : bool;
  ponder : bool;
  ponder_move : option string;
  last_info_time : Q;
  (** number of workers started so far *)
  spawned : nat;
  (** what has happened, oldest first *)
  trace : list Event
}.

(** [UCIEngine.__init__] *)
Definition init (f : option SearchFn) (nm au : string) : Engine :=
  {| name := nm; author := au;
     search_fn := match f with Some g => g | None => default_search_fn end;
     board := initial_board; options := [];
     search_thread := None; stop_event := false;
     ponder := false; ponder_move := None; last_info_time := 0%Q;
     spawned := 0; trace := [] |}.

Definition emit (e : Event) (s : Engine) : Engine :=
  {| name := name s; author := author s; search_fn := search_fn s;
     board := board s; options := options s;
     search_thread := search_thread s; stop_event := stop_event s;
     ponder := ponder s; ponder_move := ponder_move s;
     last_info_time := last_info_time s; spawned := spawned s;
     trace := trace s ++ [e] |}.

Definition set_board (b : Board) (s : Engine) : Engine :=
  emit (EvBoard b)
  {| name := name s; author := author s; search_fn := search_fn s;
     board := b; options := options s;
     search_thread := search_thread s; stop_event := stop_event s;
     ponder := ponder s; ponder_move := ponder_move s;
     last_info_time := last_info_time s; spawned := spawned s;
     trace := trace s |}.

Definition set_options (o : Dict.t OptInfo) (s : Engine) : Engine :=
  {| name := name s; author := author s; search_fn := search_fn s;
     board := board s; options := o;
     search_thread := search_thread s; stop_event := stop_event s;
     ponder := ponder s; ponder_move := ponder_move s;
     last_info_time := last_info_time s; spawned := spawned s;
     trace := trace s |}.

Definition set_search_thread (t : option nat) (s : Engine) : Engine :=
  {| name := name s; author := author s; search_fn := search_fn s;
     board := board s; options := options s;
     search_thread := t; stop_event := stop_event s;
     ponder := ponder s; ponder_move := ponder_move s;
     last_info_time := last_info_time s; spawned := spawned s;
     trace := trace s |}.

(** [self.stop_event.set()] and [self.stop_event.clear()] *)
Definition set_stop_event (b : bool) (s : Engine) : Engine :=
  emit (if b then EvStopSet else EvStopClear)
  {| name := name s; author := author s; search_fn := search_fn s;
     board := board s; options := options s;
     search_thread := search_thread s; stop_event := b;
     ponder := ponder s; ponder_move := ponder_move s;
     last_info_time := last_info_time s; spawned := spawned s;
     trace := trace s |}.

Definition set_ponder (b : bool) (s : Engine) : Engine :=
  {| name := name s; author := author s; search_fn := search_fn s;
     board := board s; options := options s;
     search_thread := search_thread s; stop_event := stop_event s;
     ponder := b; ponder_move := ponder_move s;
     last_info_time := last_info_time s; spawned := spawned s;
     trace := trace s |}.

Definition set_last_info_time (q : Q) (s : Engine) : Engine :=
  {| name := name s; author := author s; search_fn := search_fn s;
     board := board s; options := options s;
     search_thread := search_thread s; stop_event := stop_event s;
     ponder := ponder s; ponder_move := ponder_move s;
     last_info_time := q; spawned := spawned s;
     trace := trace s |}.

(** [threading.Thread(target=self._search_worker, args=(limits,)).start()] *)
Definition spawn (limits : Limits) (s : Engine) : Engine :=
  emit (EvSpawn (spawned s) limits)
  {| name := name s; author := author s; search_fn := search_fn s;
     board := board s; options := options s;
     search_thread := Some (spawned s); stop_event := stop_event s;
     ponder := ponder s; ponder_move := ponder_move s;
     last_info_time := last_info_time s; spawned := S (spawned s);
     trace := trace s |}.

(** The lines written to stdout, the logger's messages. *)
Definition sent_of (tr : list Event) : list string :=
  flat_map (fun e => match e with EvSend l => [l] | _ => [] end) tr.

Definition logged_of (tr : list Event) : list string :=
  flat_map (fun e => match e with EvLog l => [l] | _ => [] end) tr.

Definition sent (s : Engine) : list string := sent_of (trace s).
Definition logged (s : Engine) : list string := logged_of (trace s).

(** [self.logger(msg)] *)
Definition logger (msg : string) (s : Engine) : Engine := emit (EvLog msg) s.

(** [_send] *)
Definition send (line : string) (s : Engine) : Engine :=
  logger ("-> " ++ line)%string (emit (EvSend line) s).

(** A handler ends normally with a value, or raises. *)
Inductive Res (A : Type) : Type :=
| Done (a : A) (s : Engine)
| Raised (s : Engine).

Arguments Done {A} a s.
Arguments Raised {A} s.

(** ** [_send_info] *)

Definition field (key : string) (v : option PyVal) : list string :=
  match v with Some x => [key; py_str x] | None => [] end.

Definition score_parts (sc : option Score) : list string :=
  match sc with
  | None => []
  | Some (ScoreDict (Some cp) _) => ["score"; "cp"; py_str cp]
  | Some (ScoreDict None (Some mate)) => ["score"; "mate"; py_str mate]
  | Some (ScoreDict None None) => []
  | Some (ScoreOther v) => ["score"; py_str v]
  end.

Definition pv_item (x : PvItem) : string :=
  match x with PvMove m => move_uci m | PvVal v => py_str v end.

Definition pv_parts (pv : option Pv) : list string :=
  match pv with
  | None => []
  | Some (PvList l) => ["pv"; Str.join (map pv_item l)]
  | Some (PvOther v) => ["pv"; py_str v]
  end.

(** [str(int(t * 1000))]: [int] truncates towards zero. *)
Definition millis (t : Q) : string :=
  Str.of_Z (Z.quot (Qnum t * 1000) (Zpos (Qden t))).

Definition time_parts (t : option Q) : list string :=
  match t with Some q => ["time"; millis q] | None => [] end.

Definition info_line (info : Info) : string :=
  Str.join (["info"]
            ++ field "depth" (i_depth info)
            ++ field "seldepth" (i_seldepth info)
            ++ score_parts (i_score info)
            ++ field "nodes" (i_nodes info)
            ++ field "nps" (i_nps info)
            ++ pv_parts (i_pv info)
            ++ time_parts (i_time info)).

Definition send_info (info : Info) (s : Engine) : Engine :=
  send (info_line info) s.

(** ** Handshake: [_cmd_uci], [_cmd_isready] *)

Definition option_line (opt_name : string) (opt_info : OptInfo) : string :=
  let line :=
    ("option name " ++ opt_name ++ " type "
     ++ py_str (match opt_type opt_info with Some k => k | None => PyStr "spin" end))%string in
  let line :=
    match opt_default opt_info with
    | Some d => (line ++ " default " ++ py_str d)%string
    | None => line
    end in
  let line :=
    match opt_min opt_info with
    | Some a => (line ++ " min " ++ py_str a)%string
    | None => line
    end in
  let line :=
    match opt_max opt_info with
    | Some b => (line ++ " max " ++ py_str b)%string
    | None => line
    end in
  match opt_var opt_info with
  | Some vs => fold_left (fun acc v => (acc ++ " var " ++ py_str v)%string) vs line
  | None => line
  end.

(** The option lines of the handshake, in dictionary order. *)
Definition option_lines (d : Dict.t OptInfo) : list string :=
  map (fun kv => option_line (fst kv) (snd kv)) d.

Definition cmd_uci (s : Engine) : Engine :=
  let s := send ("id name " ++ name s)%string s in
  let s := send ("id author " ++ author s)%string s in
  let s := fold_left (fun st kv => send (option_line (fst kv) (snd kv)) st)
                     (options s) s in
  send "uciok" s.

Definition cmd_isready (s : Engine) : Engine := send "readyok" s.

(** ** [_cmd_setoption] and [set_option] *)

(** The inner loop: the tokens of the name, up to the token "value" or the
    end, and the tokens left from there. *)
Fixpoint name_span (tokens : list string) : list string * list string :=
  match tokens with
  | [] => ([], [])
  | t :: rest =>
      if String.eqb t "value" then ([], tokens)
      else let (n, r) := name_span rest in (t :: n, r)
  end.

(** The outer loop: the parsed [name] and [value], [None] where the
    variable is still [None] after the loop. *)
Fixpoint parse_setoption (tokens : list string) : option string * option string :=
  match tokens with
  | [] => (None, None)
  | t :: rest =>
      if String.eqb t "name" then
        let (n, r) := name_span rest in
        (Some (Str.join n),
         match r with
         | _ :: after => Some (Str.join after)
         | [] => None
         end)
      else if String.eqb t "value" then (None, Some (Str.join rest))
      else parse_setoption rest
  end.

(** The default [set_option] hook. *)
Definition set_option (nm : string) (value : option string) (s : Engine) : Engine :=
  set_options (Dict.set nm (string_option value) (options s)) s.

Definition cmd_setoption (tokens : list string) (s : Engine) : Engine :=
  match parse_setoption tokens with
  | (None, _) => s
  | (Some nm, value) =>
      let s := set_options (Dict.set nm (string_option value) (options s)) s in
      set_option nm value s
  end.

(** ** Search lifecycle: [_stop_search], [_start_search] *)

Definition stop_search (wait : bool) (s : Engine) : Engine :=
  let s := set_stop_event true s in
  let th := search_thread s in
  let s := set_search_thread None s in
  match th with
  | Some t => if wait then emit (EvJoin t (exits_within_bound t)) s else s
  | None => s
  end.

(** The body under [with self._search_lock]; only the dispatch thread ever
    takes the lock. *)
Definition start_search (limits : Limits) (s : Engine) : Engine :=
  let s := stop_search true s in
  let s := set_stop_event false s in
  spawn limits s.

Definition cmd_stop (s : Engine) : Engine := stop_search true s.

Definition cmd_ponderhit (s : Engine) : Engine := set_ponder false s.

Definition cmd_quit (s : Engine) : Engine := stop_search true s.

(** ** [_cmd_ucinewgame] *)

Definition cmd_ucinewgame (s : Engine) : Engine :=
  let s := set_board initial_board s in
  let s := set_stop_event true s in
  let s := stop_search true s in
  set_stop_event false s.

(** ** [_cmd_position] *)

(** One turn of the loop over the move tokens. *)
Definition position_move (s : Engine) (mv : string) : Engine :=
  match move_from_uci mv with
  | Some move =>
      if is_legal (board s) move then set_board (push (board s) move) s
      else
        let s := logger ("Illegal move in position: " ++ mv)%string s in
        set_board (push (board s) move) s
  | None => logger ("Failed to parse move in position: " ++ mv)%string s
  end.

(** The part after the position itself: [i] is the index reached. *)
Definition position_moves (i : nat) (tokens : list string) (s : Engine) : Engine :=
  match skipn i tokens with
  | t :: mvs =>
      if String.eqb t "moves" then fold_left position_move mvs s else s
  | [] => s
  end.

Definition cmd_position (tokens : list string) (s : Engine) : Res unit :=
  match tokens with
  | [] => Done tt s
  | t0 :: _ =>
      if String.eqb t0 "startpos" then
        Done tt (position_moves 1 tokens (set_board initial_board s))
      else if String.eqb t0 "fen" then
        match board_from_fen (Str.join (firstn 6 (skipn 1 tokens))) with
        | Some b => Done tt (position_moves 7 tokens (set_board b s))
        | None => Raised s
        end
      else Done tt (position_moves 0 tokens s)
  end.

(** ** [_parse_go] and [_cmd_go] *)

Definition int_key (t : string) : bool :=
  existsb (String.eqb t)
    ["wtime"; "btime"; "winc"; "binc"; "movestogo"; "depth"; "nodes"; "mate";
     "movetime"].

(** The token loop of [_parse_go].  After an integer key the index moves
    two places on, also past a value that failed to convert. *)
Fixpoint go_tokens (tokens : list string) (limits : Limits) : Limits :=
  match tokens with
  | [] => limits
  | t :: rest =>
      if int_key t then
        match rest with
        | v :: rest' =>
            go_tokens rest'
              (Dict.set t (match Str.int v with
                           | Some z => LInt z
                           | None => LStr v
                           end) limits)
        | [] => limits
        end
      else if String.eqb t "infinite" then
        go_tokens rest (Dict.set "infinite" LTrue limits)
      else if String.eqb t "ponder" then
        go_tokens rest (Dict.set "ponder" LTrue limits)
      else go_tokens rest limits
  end.

(** [limits.setdefault("time", limits[key] / 1000.0)] *)
Definition time_from (key : string) (limits : Limits) : option Limits :=
  match Dict.get key limits with
  | Some v =>
      match div1000 v with
      | Some q => Some (Dict.setdefault "time" (LFloat q) limits)
      | None => None
      end
  | None => Some limits
  end.

(** [None] is the exception of the division by [1000.0]: [TypeError] for
    a string, [OverflowError] for an integer beyond the floats. *)
Definition parse_go (tokens : list string) (s : Engine) : option Limits :=
  let limits := go_tokens tokens [] in
  match Dict.get "movetime" limits with
  | Some v =>
      match div1000 v with
      | Some q => Some (Dict.set "time" (LFloat q) limits)
      | None => None
      end
  | None =>
      match (if white_to_move (board s) then time_from "wtime" limits
             else Some limits) with
      | Some limits =>
          if negb (white_to_move (board s)) then time_from "btime" limits
          else Some limits
      | None => None
      end
  end.

Definition cmd_go (tokens : list string) (s : Engine) : Res unit :=
  match parse_go tokens s with
  | Some limits =>
      let s :=
        set_ponder (match Dict.get "ponder" limits with
                    | Some v => lim_truthy v
                    | None => false
                    end) s in
      Done tt (start_search limits s)
  | None => Raised s
  end.

(** ** [_handle_line] and [run] *)

Definition handle_line (line : string) (s : Engine) : Res bool :=
  match Str.split line with
  | [] => Raised s
  | cmd :: args =>
      if String.eqb cmd "uci" then Done false (cmd_uci s)
      else if String.eqb cmd "isready" then Done false (cmd_isready s)
      else if String.eqb cmd "setoption" then Done false (cmd_setoption args s)
      else if String.eqb cmd "ucinewgame" then Done false (cmd_ucinewgame s)
      else if String.eqb cmd "position" then
        match cmd_position args s with
        | Done _ s' => Done false s'
        | Raised s' => Raised s'
        end
      else if String.eqb cmd "go" then
        match cmd_go args s with
        | Done _ s' => Done false s'
        | Raised s' => Raised s'
        end
      else if String.eqb cmd "stop" then Done false (cmd_stop s)
      else if String.eqb cmd "ponderhit" then Done false (cmd_ponderhit s)
      else if String.eqb cmd "quit" then Done true (cmd_quit s)
      else Done false (logger ("Unknown command: " ++ line) s)
  end.

(** The [while True] loop of [run] over the lines [sys.stdin.readline()]
    returns: a line is the text up to and with its newline, the empty
    string is the end of input, and so is the end of the list. *)
Fixpoint run_loop (lines : list string) (s : Engine) : Engine :=
  match lines with
  | [] => s
  | raw :: rest =>
      if String.eqb raw "" then s
      else
        let line := Str.strip raw in
        if String.eqb line "" then run_loop rest s
        else
          let s := logger ("<- " ++ line) s in
          match handle_line line s with
          | Done true s' => s'
          | Done false s' => run_loop rest s'
          | Raised s' => run_loop rest (emit EvTraceback s')
          end
  end.

(** [run]: the loop, then the [finally] clause. *)
Definition run (lines : list string) (s : Engine) : Engine :=
  stop_search true (run_loop lines s).

(** ** [_search_worker] *)

(** The throttled callback the worker hands to the search function; [now]
    is the reading of [time.time()]. *)
Definition info_callback (now : Q) (info : Info) (s : Engine) : Engine :=
  if Qle_bool (5 # 100) (now - last_info_time s)
  then set_last_info_time now (send_info info s)
  else s.

(** The arguments of the one call of [self.search_fn]. *)
Definition worker_args (limits : Limits) (s : Engine) : list PyArg :=
  [ArgBoard (board_copy (board s)); ArgLimits limits; ArgStopEvent;
   ArgInfoCallback].

Definition run_callbacks (cs : list (Q * Info)) (s : Engine) : Engine :=
  fold_left (fun st c => info_callback (fst c) (snd c) st) cs s.

Definition item_str (x : Item) : string :=
  match x with
  | ItNone => "None"
  | ItMove m => move_uci m
  | ItStr s => s
  end.

(** [next(iter(self.board.legal_moves))] with its [StopIteration] case. *)
Definition first_legal (s : Engine) : string :=
  match legal_moves (board s) with
  | m :: _ => move_uci m
  | [] => "(none)"
  end.

(** From the return of the search function to the bestmove line. *)
Definition best_of (r : Result) (s : Engine) : string :=
  match r with
  | RNone => first_legal s
  | RMove m => move_uci m
  | RStr x => x
  | RTuple a _ => item_str a
  end.

Definition ponder_of (r : Result) (s : Engine) : option string :=
  match r with
  | RTuple _ b => Some (item_str b)
  | _ =>
      match ponder_move s with
      | Some p => if Str.truthy p then Some p else None
      | None => None
      end
  end.

Definition bestmove_line (best : string) (ponder : option string) : string :=
  match ponder with
  | Some p =>
      if Str.truthy p then ("bestmove " ++ best ++ " ponder " ++ p)%string
      else ("bestmove " ++ best)%string
  | None => ("bestmove " ++ best)%string
  end.

(** What the worker does once the search function has ended. *)
Definition worker_finish (o : Outcome) (s : Engine) : Engine :=
  match o with
  | Returns r => send (bestmove_line (best_of r s) (ponder_of r s)) s
  | Raises =>
      let s := emit EvTraceback s in
      send ("bestmove " ++ first_legal s) s
  end.

(** A worker that runs with no command handled meanwhile. *)
Definition search_worker (limits : Limits) (s : Engine) : Engine :=
  let b := call (search_fn s) (worker_args limits s) in
  worker_finish (outcome b) (run_callbacks (calls b) s).

(** ** Vocabulary of the properties *)

(** The command words [_handle_line] has a branch for. *)
Definition known_command (cmd : string) : bool :=
  existsb (String.eqb cmd)
    ["uci"; "isready"; "setoption"; "ucinewgame"; "position"; "go"; "stop";
     "ponderhit"; "quit"].

(** A line as read that is neither the end of input nor a quit command. *)
Definition keeps_going (raw : string) : Prop :=
  raw <> "" /\ hd_error (Str.split (Str.strip raw)) <> Some "quit".

(** Every move is legal in the position the moves before it lead to. *)
Fixpoint legal_sequence (b : Board) (ms : list Move) : bool :=
  match ms with
  | [] => true
  | m :: rest => is_legal b m && legal_sequence (push b m) rest
  end.

Definition is_bestmove (line : string) : bool := Str.startswith "bestmove" line.

Definition count_bestmove (lines : list string) : nat :=
  length (filter is_bestmove lines).

(** The calls of the info callback that pass the throttle, given the time
    of the last line sent before them. *)
Fixpoint emitted (last : Q) (cs : list (Q * Info)) : list (Q * Info) :=
  match cs with
  | [] => []
  | c :: rest =>
      if Qle_bool (5 # 100) (fst c - last)
      then c :: emitted (fst c) rest
      else emitted last rest
  end.





(** The events of joining the worker a handle names, if there is one. *)
Definition join_events (th : option nat) : list Event :=
  match th with
  | Some t => [EvJoin t (exits_within_bound t)]
  | None => []
  end.

(** The events that start no worker and join none. *)
Definition quiet (e : Event) : bool :=
  match e with
  | EvSpawn _ _ | EvJoin _ _ => false
  | _ => true
  end.

(** The workers the engine holds a handle of. *)
Definition held (s : Engine) : list nat :=
  match search_thread s with
  | Some t => [t]
  | None => []
  end.

(** [s'] comes from [s] by quiet events only, with the same handle. *)
Definition quiet_ext (s s' : Engine) : Prop :=
  search_thread s' = search_thread s
  /\ spawned s' = spawned s
  /\ exists evs, trace s' = trace s ++ evs /\ forallb quiet evs = true.


(** A result that is no legal move of the position [b]. *)
Definition invalid_result (b : Board) (r : Result) : bool :=
  match r with
  | RNone => true
  | RMove m => negb (is_legal b m)
  | RStr x =>
      match move_from_uci x with
      | Some m => negb (is_legal b m)
      | None => true
      end
  | RTuple a _ =>
      match a with
      | ItMove m => negb (is_legal b m)
      | ItStr x =>
          match move_from_uci x with
          | Some m => negb (is_legal b m)
          | None => true
          end
      | ItNone => true
      end
  end.

(** The first legal move of a position in coordinate notation, or the
    literal "(none)". *)
Definition fallback_of (b : Board) : string :=
  match legal_moves b with
  | m :: _ => move_uci m
  | [] => "(none)"
  end.

(** ** Vocabulary of further properties *)

(** The moves of the tokens that decode, in order. *)
Definition decoded (toks : list string) : list Move :=
  flat_map (fun t => match move_from_uci t with
                     | Some m => [m]
                     | None => []
                     end) toks.

(** The workers started and the workers joined along a trace, in order. *)
Definition spawned_ids (tr : list Event) : list nat :=
  flat_map (fun e => match e with EvSpawn t _ => [t] | _ => [] end) tr.

Definition joined_ids (tr : list Event) : list nat :=
  flat_map (fun e => match e with EvJoin t _ => [t] | _ => [] end) tr.

(** What the token loop of [_parse_go] may store under a key. *)
Definition go_entry (k : string) (v : LimVal) : Prop :=
  (int_key k = true /\ ((exists z, v = LInt z) \/ (exists x, v = LStr x)))
  \/ ((k = "infinite" \/ k = "ponder") /\ v = LTrue).

Definition go_entries (limits : Limits) : Prop :=
  forall k v, Dict.get k limits = Some v -> go_entry k v.

(** The words the token loop of [_parse_go] acts on. *)
Definition go_keyword (t : string) : bool :=
  int_key t || String.eqb t "infinite" || String.eqb t "ponder".

(** The handle names the worker started last, and the workers before it
    have been joined, each once, in the order they were started. *)
Definition joined_in_order (s : Engine) : Prop :=
  spawned_ids (trace s) = seq 0 (spawned s)
  /\ joined_ids (trace s) ++ held s = seq 0 (spawned s).

(** The attributes the dispatch thread owns are the same in both. *)
Definition same_session (s s' : Engine) : Prop :=
  name s' = name s /\ author s' = author s /\ search_fn s' = search_fn s
  /\ board s' = board s /\ options s' = options s
  /\ search_thread s' = search_thread s /\ stop_event s' = stop_event s
  /\ ponder s' = ponder s /\ ponder_move s' = ponder_move s
  /\ spawned s' = spawned s.

(** The key [_parse_go] takes the thinking time from. *)
Definition time_key (limits : Limits) (s : Engine) : string :=
  if Dict.mem "movetime" limits then "movetime"
  else if white_to_move (board s) then "wtime" else "btime".

(** The info dictionary [quick_search] and [rand] of [random_move.py]
    report: depth 1, nodes 1, the move as pv, time 0.0. *)
Definition one_move_info (mv : Move) : Info :=
  {| i_depth := Some (PyInt 1); i_seldepth := None; i_score := None;
     i_nodes := Some (PyInt 1); i_nps := None;
     i_pv := Some (PvList [PvMove mv]); i_time := Some 0%Q |}.

(** [if info_callback: info_callback(info)] and the return of [mv], for
    the argument in the callback's place: absent (the default [None]), the
    callback, or an object that cannot be called. *)
Definition report_and_return (cb : option PyArg) (now : Q) (mv : Move) : Behaviour :=
  match cb with
  | None => {| calls := []; outcome := Returns (RMove mv) |}
  | Some ArgInfoCallback =>
      {| calls := [(now, one_move_info mv)]; outcome := Returns (RMove mv) |}
  | Some _ => {| calls := []; outcome := Raises |}
  end.

(** [quick_search(board, limits, stop_event, info_callback=None)] of
    [py_uci.py]; [now] is the clock reading of its one callback. *)
Definition quick_search (now : Q) : SearchFn :=
  {| min_params := 3; max_params := 4;
     body := fun args =>
       match args with
       | ArgBoard b :: _ =>
           match legal_moves b with
           | mv :: _ => report_and_return (nth_error args 3) now mv
           | [] => {| calls := []; outcome := Returns RNone |}
           end
       | _ => {| calls := []; outcome := Raises |}
       end |}.

(** [rand(board, limits, stop_event, info_callback, _)] of
    [random_move.py]; [pick] is the draw of [random.choice], which raises
    [IndexError] on an empty list. *)
Definition rand (pick : nat) (now : Q) : SearchFn :=
  {| min_params := 5; max_params := 5;
     body := fun args =>
       match args with
       | ArgBoard b :: _ =>
           match nth_error (legal_moves b)
                           (pick mod length (legal_moves b)) with
           | Some mv => report_and_return (nth_error args 3) now mv
           | None => {| calls := []; outcome := Raises |}
           end
       | _ => {| calls := []; outcome := Raises |}
       end |}.

End Engine.

Arguments Done {RP A} a s.
Arguments Raised {RP A} s.

(** ** A small rules provider to run the engine on

    A two-ply game: White opens with one of two pawn moves, Black answers
    with one of two, and then no move is legal.  A board is the list of the
    moves pushed, a move is its coordinate text. *)

Module Toy.

Definition start_fen : string :=
  "rnbqkbnr/pppppppp/8/8/8/8/PPPPPPPP/RNBQKBNR w KQkq - 0 1".

Definition moves_of (b : list string) : list string :=
  match b with
  | [] => ["e2e4"; "d2d4"]
  | [_] => ["e7e5"; "d7d5"]
  | _ => []
  end.

Definition decode (t : string) : option string :=
  if (String.length t =? 4)%nat || (String.length t =? 5)%nat
  then Some t else None.

#[export] Instance rules : RulesProvider := {|
  Board := list string;
  Move := string;
  initial_board := [];
  board_from_fen := fun f => if String.eqb f start_fen then Some [] else None;
  board_copy := fun b => b;
  legal_moves := moves_of;
  is_legal := fun b m => existsb (String.eqb m) (moves_of b);
  push := fun b m => b ++ [m];
  white_to_move := fun b => Nat.even (length b);
  move_from_uci := decode;
  move_uci := fun m => m
|}.

(** Every worker has exited when its join returns. *)
Definition cooperative : Threads := {| exits_within_bound := fun _ => true |}.


(** [rand] of [dilute.py] takes five positional parameters; its body draws
    a random number and may consult another engine, so what it would return
    is left open here as a parameter of the model. *)
Definition dilute_rand (b : Behaviour) : SearchFn :=
  {| min_params := 5; max_params := 5; body := fun _ => b |}.

(** [quick_search] of [py_uci.py]: the first legal move, after one info
    line; [now] is the clock reading of the callback. *)
Definition quick_search (now : Q) : SearchFn :=
  {| min_params := 3; max_params := 4;
     body := fun args =>
       match args with
       | ArgBoard b :: _ =>
           match moves_of b with
           | mv :: _ =>
               {| calls :=
                    [(now,
                      {| i_depth := Some (PyInt 1); i_seldepth := None;
                         i_score := None; i_nodes := Some (PyInt 1);
                         i_nps := None; i_pv := Some (PvList [PvMove mv]);
                         i_time := Some 0%Q |})];
                  outcome := Returns (RMove mv) |}
           | [] => {| calls := []; outcome := Returns RNone |}
           end
       | _ => {| calls := []; outcome := Raises |}
       end |}.

(** A search function of the documented signature that makes no callback
    and ends in a fixed way. *)
Definition fixed (o : Outcome) : SearchFn :=
  {| min_params := 3; max_params := 4;
     body := fun _ => {| calls := []; outcome := o |} |}.


Definition engine0 (f : SearchFn) : Engine :=
  init (Some f) "MinimalPyUCI" "ciaranmcguinness".

(** The registration of [dilute.py], as a record of [self.options]. *)
Definition dilution_spin : OptInfo :=
  {| opt_type := Some (PyStr "spin"); opt_default := Some (PyInt 50);
     opt_min := Some (PyInt 0); opt_max := Some (PyInt 100);
     opt_var := None |}.

Definition line (text : string) : string := (text ++ Str.nl)%string.

(** U+00A0, the no-break space, and U+3000, the ideographic space. *)
Definition nbsp : string :=
  String (ascii_of_nat 194) (String (ascii_of_nat 160) EmptyString).

Definition wide_space : string :=
  String (ascii_of_nat 227)
    (String (ascii_of_nat 128) (String (ascii_of_nat 128) EmptyString)).

(** The engine after [position startpos moves e2e4] and [go infinite],
    with a search function that returns [None] once it stops. *)
Definition searching : Engine :=
  run_loop (TH := cooperative)
    [line "position startpos moves e2e4"; line "go infinite"]
    (engine0 (fixed (Returns RNone))).

End Toy.

(** * Properties *)

(** ** Strings *)

Lemma append_assoc (a b c : string) :
  ((a ++ b) ++ c = a ++ (b ++ c))%string.
Proof. induction a as [|x a IH]; simpl; congruence. Qed.

Lemma append_nil_r (a : string) : (a ++ "" = a)%string.
Proof. induction a as [|x a IH]; simpl; congruence. Qed.

(** ** Dictionaries *)

Lemma dict_get_set_same {V : Type} (k : string) (v : V) (d : Dict.t V) :
  Dict.get k (Dict.set k v d) = Some v.
Proof.
  induction d as [|[k' v'] d IH]; simpl.
  - now rewrite String.eqb_refl.
  - destruct (String.eqb k k') eqn:E; simpl; rewrite E; auto.
Qed.

Lemma dict_set_idem {V : Type} (k : string) (v : V) (d : Dict.t V) :
  Dict.set k v (Dict.set k v d) = Dict.set k v d.
Proof.
  induction d as [|[k' v'] d IH]; simpl.
  - now rewrite String.eqb_refl.
  - destruct (String.eqb k k') eqn:E; simpl; rewrite E; congruence.
Qed.

Lemma dict_in_set {V : Type} (k : string) (v : V) (d : Dict.t V) :
  In (k, v) (Dict.set k v d).
Proof.
  induction d as [|[k' v'] d IH]; simpl; auto.
  destruct (String.eqb_spec k k'); simpl; subst; auto.
Qed.

Lemma dict_set_keys_absent {V : Type} (k : string) (v : V) (d : Dict.t V) :
  Dict.get k d = None -> Dict.set k v d = d ++ [(k, v)].
Proof.
  induction d as [|[k' v'] d IH]; simpl; auto.
  destruct (String.eqb k k'); [discriminate|].
  intros H. now rewrite IH.
Qed.

(** With distinct keys, as a [dict] has them, the pair stored under a key is
    the only one with that key. *)
Lemma dict_set_unique {V : Type} (k : string) (v w : V) (d : Dict.t V) :
  NoDup (map fst d) -> In (k, w) (Dict.set k v d) -> w = v.
Proof.
  induction d as [|[k' v'] d IH]; simpl.
  - intros _ [H|[]]. congruence.
  - intros Hnd. inversion Hnd as [|? ? Hnotin Hnd']; subst.
    destruct (String.eqb_spec k k') as [->|Hne]; simpl.
    + intros [H|H]; [congruence|].
      exfalso. apply Hnotin. change k' with (fst (k', w)). now apply in_map.
    + intros [H|H]; [congruence | auto].
Qed.

Section Properties.

Context {RP : RulesProvider} {TH : Threads}.

(** ** Output of the primitives *)

Lemma sent_of_app (a b : list Event) :
  sent_of (a ++ b) = sent_of a ++ sent_of b.
Proof. apply flat_map_app. Qed.

Lemma logged_of_app (a b : list Event) :
  logged_of (a ++ b) = logged_of a ++ logged_of b.
Proof. apply flat_map_app. Qed.

Lemma sent_logger (m : string) (s : Engine) : sent (logger m s) = sent s.
Proof.
  unfold sent, logger, emit; simpl. rewrite sent_of_app; simpl.
  apply app_nil_r.
Qed.

Lemma trace_send (l : string) (s : Engine) :
  trace (send l s) = trace s ++ [EvSend l; EvLog ("-> " ++ l)%string].
Proof. unfold send, logger, emit; simpl. now rewrite <- app_assoc. Qed.

Lemma sent_send (l : string) (s : Engine) : sent (send l s) = sent s ++ [l].
Proof.
  unfold sent. rewrite trace_send, sent_of_app. reflexivity.
Qed.

Lemma sent_send_options (d : Dict.t OptInfo) (s : Engine) :
  sent (fold_left (fun st kv => send (option_line (fst kv) (snd kv)) st) d s)
  = sent s ++ option_lines d.
Proof.
  revert s. induction d as [|kv d IH]; intros s; simpl.
  - now rewrite app_nil_r.
  - rewrite IH, sent_send, <- app_assoc. reflexivity.
Qed.

Lemma sent_cmd_uci (s : Engine) :
  sent (cmd_uci s)
  = sent s ++ [("id name " ++ name s)%string; ("id author " ++ author s)%string]
    ++ option_lines (options s) ++ ["uciok"].
Proof.
  unfold cmd_uci.
  rewrite sent_send, sent_send_options, !sent_send.
  simpl. rewrite <- !app_assoc. reflexivity.
Qed.

(** ** setoption *)

Lemma name_span_no_value (n rest : list string) :
  ~ In "value" n ->
  name_span (n ++ rest)
  = (n ++ fst (name_span rest), snd (name_span rest)).
Proof.
  induction n as [|t n IH]; simpl; intros Hn.
  - now destruct (name_span rest).
  - destruct (String.eqb_spec t "value") as [->|_]; [tauto|].
    rewrite IH by tauto. reflexivity.
Qed.

(** The grammar of [_cmd_setoption]: tokens that are neither "name" nor
    "value", then "name", the tokens of the name, and either nothing more or
    "value" and the tokens of the value. *)
Lemma parse_setoption_grammar (pre n : list string) (v : option (list string)) :
  Forall (fun t => t <> "name" /\ t <> "value") pre ->
  ~ In "value" n ->
  parse_setoption
    (pre ++ "name" :: n ++ match v with Some vt => "value" :: vt | None => [] end)
  = (Some (Str.join n), option_map Str.join v).
Proof.
  intros Hpre Hn. induction Hpre as [|t pre [Hn1 Hn2] _ IH]; simpl.
  - rewrite name_span_no_value by assumption.
    destruct v as [vt|]; simpl; now rewrite app_nil_r.
  - destruct (String.eqb_spec t "name"); [contradiction|].
    destruct (String.eqb_spec t "value"); [contradiction|]. exact IH.
Qed.

Lemma name_span_spec (tokens : list string) :
  tokens = fst (name_span tokens) ++ snd (name_span tokens)
  /\ ~ In "value" (fst (name_span tokens))
  /\ (snd (name_span tokens) = []
      \/ exists after, snd (name_span tokens) = "value" :: after).
Proof.
  induction tokens as [|t rest (IH1 & IH2 & IH3)]; simpl.
  - auto.
  - destruct (String.eqb_spec t "value") as [->|Hne]; simpl.
    + split; [reflexivity|]. split; [tauto|]. right. now exists rest.
    + destruct (name_span rest) as [n r]; simpl in *.
      split; [congruence|]. split; [|exact IH3].
      intros [H|H]; [congruence | contradiction].
Qed.

(** The grammar covers every token list from which a name is parsed. *)
Lemma parse_setoption_named (tokens : list string) (nm : string)
      (value : option string) :
  parse_setoption tokens = (Some nm, value) ->
  exists pre n v,
    Forall (fun t => t <> "name" /\ t <> "value") pre
    /\ ~ In "value" n
    /\ tokens
       = pre ++ "name" :: n
             ++ match v with Some vt => "value" :: vt | None => [] end
    /\ nm = Str.join n
    /\ value = option_map Str.join v.
Proof.
  induction tokens as [|t rest IH]; simpl; [discriminate|].
  destruct (String.eqb_spec t "name") as [->|Hname].
  - destruct (name_span_spec rest) as (E & Hn & Hr).
    destruct (name_span rest) as [n r]; simpl in *.
    intros H. injection H as <- <-.
    destruct Hr as [->|[after ->]].
    + exists [], n, None. rewrite app_nil_r in E. simpl. rewrite app_nil_r.
      repeat split; auto. congruence.
    + exists [], n, (Some after). repeat split; auto. simpl. congruence.
  - destruct (String.eqb_spec t "value") as [->|Hvalue]; [discriminate|].
    intros H. destruct (IH H) as (pre & n & v & Hpre & Hn & E & Hnm & Hv).
    exists (t :: pre), n, v. repeat split; auto.
    simpl. congruence.
Qed.

Lemma cmd_setoption_parsed (tokens : list string) (nm : string)
      (value : option string) (s : Engine) :
  parse_setoption tokens = (Some nm, value) ->
  cmd_setoption tokens s
  = set_options (Dict.set nm (string_option value) (options s)) s.
Proof.
  intros H. unfold cmd_setoption, set_option. rewrite H. simpl.
  now rewrite dict_set_idem.
Qed.

Lemma option_line_string (nm : string) (value : option string) :
  option_line nm (string_option value)
  = ("option name " ++ nm ++ " type string default "
     ++ match value with Some v => v | None => "None" end)%string.
Proof.
  unfold option_line, string_option; simpl.
  destruct value; simpl; now rewrite !append_assoc.
Qed.

Lemma setoption_effect (tokens : list string) (nm : string)
      (value : option string) (s : Engine) :
  parse_setoption tokens = (Some nm, value) ->
  trace (cmd_setoption tokens s) = trace s
  /\ board (cmd_setoption tokens s) = board s
  /\ options (cmd_setoption tokens s)
     = Dict.set nm (string_option value) (options s).
Proof.
  intros H. rewrite (cmd_setoption_parsed _ _ _ _ H). now simpl.
Qed.

Lemma option_line_sent_by_uci (nm : string) (info : OptInfo) (s : Engine) :
  In (nm, info) (options s) ->
  exists before after,
    sent (cmd_uci s) = sent s ++ before ++ [option_line nm info] ++ after.
Proof.
  intros Hin. rewrite sent_cmd_uci.
  destruct (in_split _ _ Hin) as (d1 & d2 & E).
  exists ([("id name " ++ name s)%string; ("id author " ++ author s)%string]
          ++ option_lines d1), (option_lines d2 ++ ["uciok"]).
  rewrite E. unfold option_lines. rewrite map_app. simpl.
  now rewrite <- !app_assoc.
Qed.

(** ** The dispatch loop, one line at a time *)

Lemma run_loop_cons (raw line : string) (rest : list string) (s : Engine) :
  raw <> "" -> Str.strip raw = line -> line <> "" ->
  run_loop (raw :: rest) s
  = match handle_line line (logger ("<- " ++ line) s) with
    | Done true s' => s'
    | Done false s' => run_loop rest s'
    | Raised s' => run_loop rest (emit EvTraceback s')
    end.
Proof.
  intros Hraw Hstrip Hline. simpl.
  destruct (String.eqb_spec raw ""); [contradiction|].
  rewrite Hstrip.
  destruct (String.eqb_spec line ""); [contradiction|]. reflexivity.
Qed.

Lemma handle_line_setoption (line : string) (args : list string) (s : Engine) :
  Str.split line = "setoption" :: args ->
  handle_line line s = Done false (cmd_setoption args s).
Proof. intros H. unfold handle_line. now rewrite H. Qed.

Lemma handle_line_uci (line : string) (args : list string) (s : Engine) :
  Str.split line = "uci" :: args ->
  handle_line line s = Done false (cmd_uci s).
Proof. intros H. unfold handle_line. now rewrite H. Qed.

Lemma handle_line_isready (line : string) (args : list string) (s : Engine) :
  Str.split line = "isready" :: args ->
  handle_line line s = Done false (cmd_isready s).
Proof. intros H. unfold handle_line. now rewrite H. Qed.

(** C10.  A setoption command with a name -- tokens that are neither "name"
    nor "value", then "name", the name's tokens [n], and either nothing or
    "value" and the value's tokens; by [parse_setoption_named] these are all
    the commands from which a name is parsed -- leaves under that name exactly the
    record with type "string" and default the rejoined value (Python's
    [None] when there is no "value" token), with no min, max or var, whatever
    record the name had before; it is the only record of that name, and the
    next handshake sends the option line with that value after "default". *)
Theorem setoption_stores_string_record
        (pre n : list string) (v : option (list string)) (s : Engine) :
  Forall (fun t => t <> "name" /\ t <> "value") pre ->
  ~ In "value" n ->
  NoDup (map fst (options s)) ->
  let nm := Str.join n in
  let value := option_map Str.join v in
  let s' :=
    cmd_setoption
      (pre ++ "name" :: n
           ++ match v with Some vt => "value" :: vt | None => [] end) s in
  Dict.get nm (options s')
  = Some {| opt_type := Some (PyStr "string");
            opt_default :=
              Some (match value with Some x => PyStr x | None => PyNone end);
            opt_min := None; opt_max := None; opt_var := None |}
  /\ (forall info, In (nm, info) (options s') -> info = string_option value)
  /\ exists before after,
       sent (cmd_uci s')
       = sent s' ++ before
         ++ [("option name " ++ nm ++ " type string default "
              ++ match value with Some x => x | None => "None" end)%string]
         ++ after.
Proof.
  intros Hpre Hn Hnd nm value s'.
  pose proof (parse_setoption_grammar pre n v Hpre Hn) as Hparse.
  destruct (setoption_effect _ _ _ s Hparse) as (_ & _ & Hopt).
  fold nm value s' in Hopt.
  split; [|split].
  - rewrite Hopt. apply dict_get_set_same.
  - intros info Hin. rewrite Hopt in Hin.
    now apply (dict_set_unique nm (string_option value) info (options s)).
  - rewrite <- option_line_string.
    apply option_line_sent_by_uci. rewrite Hopt. apply dict_in_set.
Qed.

(** C9.  After the lines [setoption name Dilution value 75] and [uci] the
    handshake sends the option line of Dilution with 75 as its value; and a
    setoption line naming an option the registry does not hold ends without
    an exception, sends and logs nothing, and leaves the value stored under
    the name, where a lookup finds it. *)
Theorem setoption_then_uci_reflects_value
        (line : string) (n v : list string) (s : Engine) :
  Str.split line = "setoption" :: "name" :: n ++ "value" :: v ->
  ~ In "value" n ->
  Dict.get (Str.join n) (options s) = None ->
  (exists before after,
      sent (run_loop [("setoption name Dilution value 75" ++ Str.nl)%string;
                      ("uci" ++ Str.nl)%string] s)
      = sent s ++ before
        ++ ["option name Dilution type string default 75"] ++ after)
  /\ exists s',
      handle_line line s = Done false s'
      /\ trace s' = trace s
      /\ Dict.get (Str.join n) (options s')
         = Some (string_option (Some (Str.join v)))
      /\ options s' = options s ++ [(Str.join n, string_option (Some (Str.join v)))].
Proof.
  intros Hsplit Hn Hnew. split.
  - rewrite (run_loop_cons _ "setoption name Dilution value 75")
      by (try reflexivity; discriminate).
    rewrite (handle_line_setoption _ ["name"; "Dilution"; "value"; "75"])
      by reflexivity.
    rewrite (run_loop_cons _ "uci") by (try reflexivity; discriminate).
    rewrite (handle_line_uci _ []) by reflexivity.
    set (s1 := cmd_setoption _ _).
    assert (Hin : In ("Dilution", string_option (Some "75")) (options s1)).
    { unfold s1. simpl. rewrite dict_set_idem. apply dict_in_set. }
    assert (Htr : sent s1 = sent s).
    { unfold s1. simpl. unfold sent; simpl. apply sent_logger. }
    destruct (option_line_sent_by_uci _ _ (logger "<- uci" s1) Hin)
      as (b & a & E).
    exists b, a. simpl run_loop. rewrite E, sent_logger, Htr. reflexivity.
  - pose proof (parse_setoption_grammar [] n (Some v) (Forall_nil _) Hn) as Hp.
    simpl app in Hp. simpl option_map in Hp.
    destruct (setoption_effect _ _ _ s Hp) as (Htr & _ & Hopt).
    eexists. split; [apply handle_line_setoption; exact Hsplit|].
    split; [exact Htr|]. rewrite Hopt.
    split; [apply dict_get_set_same | now apply dict_set_keys_absent].
Qed.

(** ** The dispatch loop *)

Lemma handle_line_stops (line : string) (s s' : Engine) :
  handle_line line s = Done true s' ->
  hd_error (Str.split line) = Some "quit".
Proof.
  unfold handle_line. destruct (Str.split line) as [|cmd args]; [discriminate|].
  repeat match goal with
         | |- context [String.eqb cmd ?k] =>
             destruct (String.eqb_spec cmd k); [subst cmd|]
         end;
    try discriminate; try reflexivity.
  - destruct (cmd_position args s); discriminate.
  - destruct (cmd_go args s); discriminate.
Qed.

Lemma handle_line_unknown (line cmd : string) (args : list string) (s : Engine) :
  Str.split line = cmd :: args ->
  known_command cmd = false ->
  handle_line line s = Done false (logger ("Unknown command: " ++ line) s).
Proof.
  intros Hsplit Hk. unfold handle_line. rewrite Hsplit.
  unfold known_command in Hk. simpl in Hk.
  repeat match type of Hk with
         | (_ || _)%bool = false =>
             apply orb_false_elim in Hk; destruct Hk as [?H Hk]
         end.
  repeat match goal with
         | H : String.eqb cmd _ = false |- _ => rewrite H; clear H
         end.
  reflexivity.
Qed.

(** Whatever the handlers of a run of lines did, an exception included, the
    loop is still reading after them, unless one of them was a quit command
    or the end of input. *)
Lemma run_loop_app (pre rest : list string) (s : Engine) :
  Forall keeps_going pre ->
  run_loop (pre ++ rest) s = run_loop rest (run_loop pre s).
Proof.
  intros Hpre. revert s.
  induction Hpre as [|raw pre [Hraw Hquit] _ IH]; intros s; [reflexivity|].
  simpl. destruct (String.eqb_spec raw ""); [contradiction|].
  destruct (String.eqb (Str.strip raw) ""); [apply IH|].
  destruct (handle_line (Str.strip raw) _) as [[|] s'|s'] eqn:E; try apply IH.
  apply handle_line_stops in E. contradiction.
Qed.

(** C8.  After any lines [pre] that hold no quit command and no end of
    input, the loop goes on to the lines that follow, whatever the handlers
    did: a handler ends the loop only on the command word quit, and after a
    handler that raised the traceback is printed and the next line is read.
    A line whose command word is none of the nine is logged as unknown,
    sends nothing, leaves the position as it was, and an isready line after
    it is answered with readyok. *)
Theorem dispatch_loop_survives
        (pre rest : list string) (raw line cmd : string) (args : list string)
        (s : Engine) :
  Forall keeps_going pre ->
  raw <> "" ->
  Str.strip raw = line ->
  Str.split line = cmd :: args ->
  known_command cmd = false ->
  run_loop (pre ++ rest) s = run_loop rest (run_loop pre s)
  /\ (forall l st st', handle_line l st = Done true st' ->
                       hd_error (Str.split l) = Some "quit")
  /\ (forall raw0 more st st',
        raw0 <> "" -> Str.strip raw0 <> "" ->
        handle_line (Str.strip raw0) (logger ("<- " ++ Str.strip raw0) st)
        = Raised st' ->
        run_loop (raw0 :: more) st = run_loop more (emit EvTraceback st'))
  /\ run_loop [raw] s
     = logger ("Unknown command: " ++ line) (logger ("<- " ++ line) s)
  /\ sent (run_loop [raw] s) = sent s
  /\ board (run_loop [raw] s) = board s
  /\ sent (run_loop [raw; ("isready" ++ Str.nl)%string] s) = sent s ++ ["readyok"].
Proof.
  intros Hpre Hraw Hstrip Hsplit Hk.
  assert (Hline : line <> "").
  { intros ->. discriminate Hsplit. }
  assert (Hone : forall more,
             run_loop (raw :: more) s
             = run_loop more
                 (logger ("Unknown command: " ++ line) (logger ("<- " ++ line) s))).
  { intros more.
    rewrite (run_loop_cons raw line) by assumption.
    now rewrite (handle_line_unknown line cmd args) by assumption. }
  split; [now apply run_loop_app|].
  split; [exact handle_line_stops|].
  split.
  { intros raw0 more st st' H0 H1 H2.
    rewrite (run_loop_cons raw0 (Str.strip raw0)) by auto.
    now rewrite H2. }
  split; [apply Hone|].
  split; [rewrite Hone; simpl; now rewrite !sent_logger|].
  split; [rewrite Hone; reflexivity|].
  rewrite Hone.
  rewrite (run_loop_cons _ "isready") by (try reflexivity; discriminate).
  rewrite (handle_line_isready _ []) by reflexivity.
  simpl. unfold cmd_isready. now rewrite sent_send, !sent_logger.
Qed.

(** ** position *)

Lemma trace_set_board (b : Board) (s : Engine) :
  trace (set_board b s) = trace s ++ [EvBoard b].
Proof. reflexivity. Qed.

Lemma sent_set_board (b : Board) (s : Engine) : sent (set_board b s) = sent s.
Proof.
  unfold sent. rewrite trace_set_board, sent_of_app. simpl. apply app_nil_r.
Qed.

Lemma logged_set_board (b : Board) (s : Engine) :
  logged (set_board b s) = logged s.
Proof.
  unfold logged. rewrite trace_set_board, logged_of_app. simpl. apply app_nil_r.
Qed.

Lemma position_move_decoded (t : string) (m : Move) (s : Engine) :
  move_from_uci t = Some m ->
  position_move s t
  = if is_legal (board s) m then set_board (push (board s) m) s
    else set_board (push (board s) m)
                   (logger ("Illegal move in position: " ++ t) s).
Proof. intros H. unfold position_move. now rewrite H. Qed.

(** The loop over the move tokens pushes every token that decodes, in
    order, legal or not. *)
Lemma position_moves_board (toks : list string) (ms : list Move) (s : Engine) :
  map move_from_uci toks = map Some ms ->
  board (fold_left position_move toks s) = fold_left push ms (board s)
  /\ sent (fold_left position_move toks s) = sent s.
Proof.
  revert ms s. induction toks as [|t toks IH]; intros [|m ms] s H;
    try discriminate; simpl; [auto|].
  simpl in H. injection H as Ht Hrest.
  rewrite (position_move_decoded t m s Ht).
  destruct (is_legal (board s) m).
  - destruct (IH ms (set_board (push (board s) m) s) Hrest) as [Hb Hs].
    rewrite Hb, Hs. now rewrite sent_set_board.
  - destruct (IH ms (set_board (push (board s) m)
                               (logger ("Illegal move in position: " ++ t) s))
                 Hrest) as [Hb Hs].
    rewrite Hb, Hs. now rewrite sent_set_board, sent_logger.
Qed.

(** Legal moves are pushed without a word to the logger. *)
Lemma position_moves_quiet (toks : list string) (ms : list Move) (s : Engine) :
  map move_from_uci toks = map Some ms ->
  legal_sequence (board s) ms = true ->
  logged (fold_left position_move toks s) = logged s.
Proof.
  revert ms s. induction toks as [|t toks IH]; intros [|m ms] s H Hl;
    try discriminate; simpl; [auto|].
  simpl in H. injection H as Ht Hrest.
  simpl in Hl. apply andb_prop in Hl. destruct Hl as [Hm Hl].
  rewrite (position_move_decoded t m s Ht), Hm.
  rewrite (IH ms _ Hrest) by exact Hl. apply logged_set_board.
Qed.

(** C6.  For tokens that decode to the moves [ms], each legal where it is
    played from the initial position, the line
    [position startpos moves m1 ... mk] ends normally and leaves as held
    position the initial one with [ms] pushed in order; nothing is sent and
    no move is reported to the logger. *)
Theorem position_startpos_moves
        (line : string) (toks : list string) (ms : list Move) (s : Engine) :
  Str.split line = "position" :: "startpos" :: "moves" :: toks ->
  map move_from_uci toks = map Some ms ->
  legal_sequence initial_board ms = true ->
  exists s',
    handle_line line s = Done false s'
    /\ board s' = fold_left push ms initial_board
    /\ sent s' = sent s
    /\ logged s' = logged s.
Proof.
  intros Hsplit Hdec Hlegal.
  exists (fold_left position_move toks (set_board initial_board s)).
  split.
  - unfold handle_line. rewrite Hsplit. reflexivity.
  - destruct (position_moves_board toks ms (set_board initial_board s) Hdec)
      as [Hb Hs].
    split; [exact Hb|].
    split; [now rewrite Hs, sent_set_board|].
    rewrite (position_moves_quiet toks ms) by assumption.
    apply logged_set_board.
Qed.

(** ** The search worker *)

Lemma is_bestmove_prefix (x : string) : is_bestmove ("bestmove " ++ x) = true.
Proof. reflexivity. Qed.

Lemma bestmove_line_shape (best : string) (ponder : option string) :
  exists suffix,
    bestmove_line best ponder = ("bestmove " ++ best ++ suffix)%string
    /\ (ponder = None -> suffix = "").
Proof.
  unfold bestmove_line. destruct ponder as [p|].
  - destruct (Str.truthy p).
    + exists (" ponder " ++ p)%string. split; [reflexivity | discriminate].
    + exists "". now rewrite append_nil_r.
  - exists "". now rewrite append_nil_r.
Qed.

Lemma is_bestmove_line (best : string) (ponder : option string) :
  is_bestmove (bestmove_line best ponder) = true.
Proof.
  destruct (bestmove_line_shape best ponder) as (x & -> & _).
  apply is_bestmove_prefix.
Qed.

Lemma info_line_not_bestmove (info : Info) : is_bestmove (info_line info) = false.
Proof.
  unfold info_line. simpl app.
  match goal with |- context [Str.join ("info" :: ?parts)] => destruct parts end;
    reflexivity.
Qed.

Lemma count_bestmove_app (a b : list string) :
  count_bestmove (a ++ b) = count_bestmove a + count_bestmove b.
Proof. unfold count_bestmove. now rewrite filter_app, length_app. Qed.

Lemma count_bestmove_none (ls : list string) :
  Forall (fun l => is_bestmove l = false) ls -> count_bestmove ls = 0.
Proof.
  unfold count_bestmove. induction 1 as [|l ls Hl _ IH]; simpl; auto.
  now rewrite Hl.
Qed.

(** The callback: one info line when the call passes the throttle, and no
    trace of the call at all when it does not. *)
Lemma info_callback_cases (now : Q) (info : Info) (s : Engine) :
  (Qle_bool (5 # 100) (now - last_info_time s) = true
   /\ info_callback now info s = set_last_info_time now (send_info info s))
  \/ (Qle_bool (5 # 100) (now - last_info_time s) = false
      /\ info_callback now info s = s).
Proof.
  unfold info_callback.
  destruct (Qle_bool (5 # 100) (now - last_info_time s)); auto.
Qed.

Lemma run_callbacks_sent (cs : list (Q * Info)) (s : Engine) :
  sent (run_callbacks cs s)
  = sent s ++ map (fun c => info_line (snd c)) (emitted (last_info_time s) cs)
  /\ board (run_callbacks cs s) = board s
  /\ ponder_move (run_callbacks cs s) = ponder_move s.
Proof.
  unfold run_callbacks. revert s.
  induction cs as [|[now info] cs IH]; intros s; simpl.
  - now rewrite app_nil_r.
  - destruct (info_callback_cases now info s) as [[Hq E]|[Hq E]];
      rewrite E, Hq; destruct (IH (info_callback now info s)) as (H1 & H2 & H3);
      rewrite E in H1, H2, H3; rewrite H1, H2, H3.
    + change (sent (set_last_info_time now (send_info info s)))
        with (sent (send (info_line info) s)).
      rewrite sent_send. simpl. now rewrite <- app_assoc.
    + auto.
Qed.

Lemma worker_finish_sent (o : Outcome) (s : Engine) :
  sent (worker_finish o s)
  = sent s ++ [match o with
               | Returns r => bestmove_line (best_of r s) (ponder_of r s)
               | Raises => ("bestmove " ++ first_legal s)%string
               end].
Proof.
  destruct o as [r|]; unfold worker_finish.
  - apply sent_send.
  - rewrite sent_send. unfold sent, emit; simpl.
    rewrite sent_of_app; simpl. now rewrite app_nil_r.
Qed.

Lemma worker_finish_bestmove (o : Outcome) (s : Engine) :
  exists line,
    sent (worker_finish o s) = sent s ++ [line] /\ is_bestmove line = true.
Proof.
  eexists. split; [apply worker_finish_sent|].
  destruct o; [apply is_bestmove_line | apply is_bestmove_prefix].
Qed.

Lemma search_worker_sent (limits : Limits) (s : Engine) :
  exists infos line,
    sent (search_worker limits s) = sent s ++ infos ++ [line]
    /\ Forall (fun l => is_bestmove l = false) infos
    /\ is_bestmove line = true
    /\ line = match outcome (call (search_fn s) (worker_args limits s)) with
              | Returns r =>
                  bestmove_line
                    (match r with RNone => fallback_of (board s)
                             | _ => best_of r s end)
                    (ponder_of r s)
              | Raises => ("bestmove " ++ fallback_of (board s))%string
              end.
Proof.
  unfold search_worker.
  set (b := call (search_fn s) (worker_args limits s)).
  destruct (run_callbacks_sent (calls b) s) as (Hs & Hb & Hp).
  destruct (worker_finish_bestmove (outcome b) (run_callbacks (calls b) s))
    as (line & Hl & Hbm).
  exists (map (fun c => info_line (snd c)) (emitted (last_info_time s) (calls b))),
         line.
  split; [now rewrite Hl, Hs, <- app_assoc|].
  split.
  { apply Forall_forall. intros l Hin. apply in_map_iff in Hin.
    destruct Hin as (c & <- & _). apply info_line_not_bestmove. }
  split; [exact Hbm|].
  rewrite worker_finish_sent in Hl. apply app_inv_head in Hl.
  injection Hl as <-.
  destruct (outcome b) as [r|].
  - unfold ponder_of, best_of, first_legal, fallback_of. rewrite Hb, Hp.
    now destruct r.
  - unfold first_legal, fallback_of. simpl. now rewrite Hb.
Qed.

(** ** The search lifecycle *)

Lemma stop_search_effect (s : Engine) :
  trace (stop_search true s) = trace s ++ EvStopSet :: join_events (search_thread s)
  /\ search_thread (stop_search true s) = None
  /\ spawned (stop_search true s) = spawned s
  /\ board (stop_search true s) = board s
  /\ stop_event (stop_search true s) = true.
Proof.
  unfold stop_search. simpl.
  destruct (search_thread s) as [t|]; simpl; rewrite <- ?app_assoc; auto.
Qed.

Lemma start_search_effect (limits : Limits) (s : Engine) :
  trace (start_search limits s)
  = trace s ++ EvStopSet :: join_events (search_thread s)
    ++ [EvStopClear; EvSpawn (spawned s) limits]
  /\ search_thread (start_search limits s) = Some (spawned s)
  /\ spawned (start_search limits s) = S (spawned s)
  /\ stop_event (start_search limits s) = false.
Proof.
  unfold start_search.
  destruct (stop_search_effect s) as (Ht & Hth & Hsp & _).
  unfold spawn, set_stop_event, emit; simpl.
  rewrite Ht, Hsp. rewrite <- !app_assoc. simpl. auto.
Qed.

Lemma cmd_go_effect (tokens : list string) (s s' : Engine) :
  cmd_go tokens s = Done tt s' ->
  exists limits,
    parse_go tokens s = Some limits
    /\ trace s'
       = trace s ++ EvStopSet :: join_events (search_thread s)
         ++ [EvStopClear; EvSpawn (spawned s) limits]
    /\ search_thread s' = Some (spawned s).
Proof.
  unfold cmd_go. destruct (parse_go tokens s) as [limits|]; [|discriminate].
  intros H. injection H as <-. exists limits. split; [reflexivity|].
  destruct (start_search_effect limits
              (set_ponder (match Dict.get "ponder" limits with
                           | Some v => lim_truthy v
                           | None => false
                           end) s)) as (Ht & Hth & _).
  now rewrite Ht, Hth.
Qed.

(** C1.  A go command that ends normally starts one worker, and a worker
    writes one bestmove line, after its info lines: whatever the search
    function does, and also when it raises, in which case the traceback is
    printed and the line names the first legal move of the held position or
    "(none)". *)
Theorem one_bestmove_per_job (tokens : list string) (s s' : Engine) :
  cmd_go tokens s = Done tt s' ->
  (exists limits before,
      parse_go tokens s = Some limits
      /\ trace s' = trace s ++ before ++ [EvSpawn (spawned s) limits]
      /\ Forall (fun e => match e with EvSpawn _ _ => False | _ => True end)
                before)
  /\ (forall limits w,
        exists infos line,
          sent (search_worker limits w) = sent w ++ infos ++ [line]
          /\ count_bestmove (infos ++ [line]) = 1
          /\ is_bestmove line = true)
  /\ (forall cs w, exists infos,
          sent (run_callbacks cs w) = sent w ++ infos
          /\ count_bestmove infos = 0)
  /\ (forall o w, exists line,
          sent (worker_finish o w) = sent w ++ [line]
          /\ count_bestmove [line] = 1)
  /\ (forall w,
        trace (worker_finish Raises w)
        = trace w ++ [EvTraceback;
                      EvSend ("bestmove " ++ fallback_of (board w));
                      EvLog ("-> bestmove " ++ fallback_of (board w))]).
Proof.
  intros Hgo. split; [|split; [|split; [|split]]].
  - destruct (cmd_go_effect tokens s s' Hgo) as (limits & Hp & Ht & _).
    exists limits, (EvStopSet :: join_events (search_thread s) ++ [EvStopClear]).
    split; [exact Hp|]. split.
    + rewrite Ht. simpl. now rewrite <- !app_assoc.
    + constructor; [exact I|]. apply Forall_app. split.
      * destruct (search_thread s); simpl; repeat constructor.
      * repeat constructor.
  - intros limits w.
    destruct (search_worker_sent limits w) as (infos & line & E & Hi & Hb & _).
    exists infos, line. split; [exact E|]. split; [|exact Hb].
    rewrite count_bestmove_app, (count_bestmove_none infos Hi).
    unfold count_bestmove; simpl. now rewrite Hb.
  - intros cs w. destruct (run_callbacks_sent cs w) as (E & _).
    eexists. split; [exact E|]. apply count_bestmove_none.
    apply Forall_forall. intros l Hin. apply in_map_iff in Hin.
    destruct Hin as (c & <- & _). apply info_line_not_bestmove.
  - intros o w. destruct (worker_finish_bestmove o w) as (line & E & Hb).
    exists line. split; [exact E|]. unfold count_bestmove; simpl. now rewrite Hb.
  - intros w. unfold worker_finish. rewrite trace_send. simpl.
    now rewrite <- app_assoc.
Qed.

(** The call of the search function, read off the worker: four arguments,
    a copy of the held position, the limits, the stop event and the info
    callback.  The option registry is not among them, so a search function
    that requires a fifth parameter is never entered: the call raises and
    the worker answers with the fallback move. *)
Theorem worker_calls_with_four_arguments (limits : Limits) (s : Engine) :
  worker_args limits s
  = [ArgBoard (board_copy (board s)); ArgLimits limits; ArgStopEvent;
     ArgInfoCallback]
  /\ length (worker_args limits s) = 4
  /\ (forall o, ~ In (ArgOptions o) (worker_args limits s))
  /\ search_worker limits s
     = worker_finish
         (outcome (call (search_fn s) (worker_args limits s)))
         (run_callbacks (calls (call (search_fn s) (worker_args limits s))) s)
  /\ (forall f, 5 <= min_params f ->
                call f (worker_args limits s) = {| calls := []; outcome := Raises |})
  /\ (5 <= min_params (search_fn s) ->
      trace (search_worker limits s)
      = trace s ++ [EvTraceback;
                    EvSend ("bestmove " ++ fallback_of (board s));
                    EvLog ("-> bestmove " ++ fallback_of (board s))]).
Proof.
  assert (Hcall : forall f, 5 <= min_params f ->
            call f (worker_args limits s) = {| calls := []; outcome := Raises |}).
  { intros f Hf. unfold call. simpl length.
    destruct (Nat.leb_spec (min_params f) 4); [lia | reflexivity]. }
  repeat split; auto.
  - intros o [H|[H|[H|[H|[]]]]]; discriminate.
  - intros Hf. unfold search_worker. rewrite (Hcall _ Hf).
    cbn [calls outcome]. unfold run_callbacks. cbn [fold_left].
    unfold worker_finish. rewrite trace_send. simpl.
    now rewrite <- app_assoc.
Qed.

(** C4, as the code has it.  When the search function returns [None] and
    no command replaced the held position meanwhile, the bestmove line names
    the first legal move of that position, from which the job's copy was
    taken, or "(none)"; a ponder move follows only if the engine holds one.
    Any other return value is written out as it is. *)
Theorem none_result_falls_back (limits : Limits) (s : Engine) :
  outcome (call (search_fn s) (worker_args limits s)) = Returns RNone ->
  (exists infos suffix,
      sent (search_worker limits s)
      = sent s ++ infos
        ++ [("bestmove " ++ fallback_of (board s) ++ suffix)%string]
      /\ Forall (fun l => is_bestmove l = false) infos
      /\ (ponder_move s = None -> suffix = ""))
  /\ (forall x w,
        sent (worker_finish (Returns (RStr x)) w)
        = sent w ++ [bestmove_line x (ponder_of (RStr x) w)])
  /\ (forall m w,
        sent (worker_finish (Returns (RMove m)) w)
        = sent w ++ [bestmove_line (move_uci m) (ponder_of (RMove m) w)]).
Proof.
  intros Hnone. split; [|split].
  - destruct (search_worker_sent limits s) as (infos & line & E & Hi & _ & Hl).
    rewrite Hnone in Hl.
    destruct (bestmove_line_shape (fallback_of (board s)) (ponder_of RNone s))
      as (suffix & Hshape & Hsuf).
    exists infos, suffix. rewrite E, Hl, Hshape.
    split; [reflexivity|]. split; [exact Hi|].
    intros Hp. apply Hsuf. unfold ponder_of. now rewrite Hp.
  - intros x w. apply worker_finish_sent.
  - intros m w. apply worker_finish_sent.
Qed.

(** ** The throttle of the info callback *)

Lemma inject_succ (k : nat) :
  (inject_Z (Z.of_nat (S k)) == inject_Z (Z.of_nat k) + 1)%Q.
Proof.
  rewrite Nat2Z.inj_succ, <- Z.add_1_r, inject_Z_plus. reflexivity.
Qed.

(** The [k]-th line sent is at least [k + 1] windows after the line sent
    last before the calls. *)
Lemma emitted_gap (cs : list (Q * Info)) (last : Q) (k : nat) (c : Q * Info) :
  nth_error (emitted last cs) k = Some c ->
  ((5 # 100) * inject_Z (Z.of_nat (S k)) <= fst c - last)%Q.
Proof.
  revert last k. induction cs as [|c0 cs IH]; intros last k; simpl.
  - destruct k; discriminate.
  - destruct (Qle_bool (5 # 100) (fst c0 - last)) eqn:E; [|apply IH].
    apply Qle_bool_iff in E. destruct k as [|k]; cbn [nth_error].
    + intros H. injection H as <-.
      change ((5 # 100) * 1 <= fst c0 - last)%Q. lra.
    + intros H. apply IH in H. rewrite (inject_succ (S k)). lra.
Qed.

(** What is sent after a line is what the throttle lets through when that
    line is the last one sent. *)
Lemma emitted_suffix (cs : list (Q * Info)) (last : Q) (i : nat) (c : Q * Info) :
  nth_error (emitted last cs) i = Some c ->
  exists cs', skipn (S i) (emitted last cs) = emitted (fst c) cs'.
Proof.
  revert last i. induction cs as [|c0 cs IH]; intros last i; simpl.
  - destruct i; discriminate.
  - destruct (Qle_bool (5 # 100) (fst c0 - last)); [|apply IH].
    destruct i as [|i]; simpl.
    + intros H. injection H as <-. now exists cs.
    + apply IH.
Qed.

Lemma emitted_pairwise (cs : list (Q * Info)) (last : Q) (i j : nat)
      (ci cj : Q * Info) :
  i < j ->
  nth_error (emitted last cs) i = Some ci ->
  nth_error (emitted last cs) j = Some cj ->
  ((5 # 100) * inject_Z (Z.of_nat (j - i)) <= fst cj - fst ci)%Q.
Proof.
  intros Hij Hi Hj.
  destruct (emitted_suffix cs last i ci Hi) as (cs' & E).
  replace j with (S i + (j - S i)) in Hj by lia.
  rewrite <- nth_error_skipn, E in Hj.
  apply emitted_gap in Hj.
  now replace (S (j - S i)) with (j - i) in Hj by lia.
Qed.

Lemma info_callback_dropped (now : Q) (info : Info) (s : Engine) :
  (now - last_info_time s < 5 # 100)%Q -> info_callback now info s = s.
Proof.
  intros Hlt.
  destruct (info_callback_cases now info s) as [[Hq _]|[_ E]]; [|exact E].
  apply Qle_bool_iff in Hq. lra.
Qed.

(** C7.  Of the calls of the info callback, with their clock readings, the
    lines sent are those of the calls [emitted] keeps: any two of them are
    at least 50 ms apart (and the [i]-th and the [j]-th at least [j - i]
    windows), a call less than 50 ms after the last line sent changes
    nothing at all, so it cannot be replayed, and the number of lines, less
    one, is at most the time from the first to the last of them divided by
    the window, however many calls there were. *)
Theorem info_lines_throttled (cs : list (Q * Info)) (s : Engine) :
  sent (run_callbacks cs s)
  = sent s
    ++ map (fun c => info_line (snd c)) (emitted (last_info_time s) cs)
  /\ (forall i j ci cj,
        i < j ->
        nth_error (emitted (last_info_time s) cs) i = Some ci ->
        nth_error (emitted (last_info_time s) cs) j = Some cj ->
        (5 # 100 <= fst cj - fst ci)%Q
        /\ ((5 # 100) * inject_Z (Z.of_nat (j - i)) <= fst cj - fst ci)%Q)
  /\ (forall now info w,
        (now - last_info_time w < 5 # 100)%Q -> info_callback now info w = w)
  /\ (forall first last,
        hd_error (emitted (last_info_time s) cs) = Some first ->
        nth_error (emitted (last_info_time s) cs)
                  (length (emitted (last_info_time s) cs) - 1) = Some last ->
        (inject_Z (Z.of_nat (length (emitted (last_info_time s) cs) - 1))
         <= (fst last - fst first) / (5 # 100))%Q).
Proof.
  split; [apply run_callbacks_sent|]. split; [|split].
  - intros i j ci cj Hij Hi Hj.
    pose proof (emitted_pairwise cs _ i j ci cj Hij Hi Hj) as H.
    split; [|exact H].
    assert (1 <= inject_Z (Z.of_nat (j - i)))%Q.
    { rewrite <- (Zle_Qle 1). lia. }
    nra.
  - exact info_callback_dropped.
  - intros first last Hfirst Hlast.
    set (n := length (emitted (last_info_time s) cs)) in *.
    apply Qle_shift_div_l; [reflexivity|].
    destruct (Nat.eq_dec (n - 1) 0) as [E|E].
    + rewrite E in *.
      assert (first = last).
      { destruct (emitted (last_info_time s) cs); simpl in *; congruence. }
      subst. change (0 * (5 # 100) <= fst last - fst last)%Q. lra.
    + assert (H0 : nth_error (emitted (last_info_time s) cs) 0 = Some first).
      { destruct (emitted (last_info_time s) cs); simpl in *; congruence. }
      pose proof (emitted_pairwise cs _ 0 (n - 1) first last
                    ltac:(lia) H0 Hlast) as H.
      rewrite Nat.sub_0_r in H. lra.
Qed.

(** ** Workers alive along a trace *)




Lemma quiet_ext_refl (s : Engine) : quiet_ext s s.
Proof.
  repeat split. exists []. now rewrite app_nil_r.
Qed.

Lemma quiet_ext_trans (s1 s2 s3 : Engine) :
  quiet_ext s1 s2 -> quiet_ext s2 s3 -> quiet_ext s1 s3.
Proof.
  intros (H1 & H1' & e1 & T1 & Q1) (H2 & H2' & e2 & T2 & Q2).
  split; [congruence|]. split; [congruence|].
  exists (e1 ++ e2). rewrite T2, T1, <- app_assoc. split; [reflexivity|].
  rewrite forallb_app. now rewrite Q1, Q2.
Qed.

Lemma quiet_ext_emit (e : Event) (s : Engine) :
  quiet e = true -> quiet_ext s (emit e s).
Proof.
  intros H. repeat split. exists [e]. simpl. now rewrite H.
Qed.

Lemma quiet_ext_logger (m : string) (s : Engine) : quiet_ext s (logger m s).
Proof. now apply quiet_ext_emit. Qed.

Lemma quiet_ext_send (l : string) (s : Engine) : quiet_ext s (send l s).
Proof.
  unfold send. eapply quiet_ext_trans; [|apply quiet_ext_logger].
  now apply quiet_ext_emit.
Qed.

Lemma quiet_ext_set_board (b : Board) (s : Engine) : quiet_ext s (set_board b s).
Proof. repeat split. exists [EvBoard b]. auto. Qed.

Lemma quiet_ext_set_stop_event (b : bool) (s : Engine) :
  quiet_ext s (set_stop_event b s).
Proof.
  repeat split. exists [if b then EvStopSet else EvStopClear].
  split; [reflexivity | now destruct b].
Qed.

Lemma quiet_ext_set_options (o : Dict.t OptInfo) (s : Engine) :
  quiet_ext s (set_options o s).
Proof. repeat split. exists []. simpl. now rewrite app_nil_r. Qed.

Lemma quiet_ext_set_ponder (b : bool) (s : Engine) :
  quiet_ext s (set_ponder b s).
Proof. repeat split. exists []. simpl. now rewrite app_nil_r. Qed.

Lemma quiet_ext_fold {A : Type} (step : Engine -> A -> Engine) (l : list A) :
  (forall st a, quiet_ext st (step st a)) ->
  forall s, quiet_ext s (fold_left step l s).
Proof.
  intros Hstep. induction l as [|a l IH]; intros s; simpl.
  - apply quiet_ext_refl.
  - eapply quiet_ext_trans; [apply Hstep | apply IH].
Qed.

Lemma quiet_ext_cmd_uci (s : Engine) : quiet_ext s (cmd_uci s).
Proof.
  unfold cmd_uci.
  eapply quiet_ext_trans; [apply quiet_ext_send|].
  eapply quiet_ext_trans; [apply quiet_ext_send|].
  eapply quiet_ext_trans; [|apply quiet_ext_send].
  apply quiet_ext_fold. intros st kv. apply quiet_ext_send.
Qed.

Lemma quiet_ext_cmd_setoption (tokens : list string) (s : Engine) :
  quiet_ext s (cmd_setoption tokens s).
Proof.
  unfold cmd_setoption, set_option.
  destruct (parse_setoption tokens) as [[nm|] value].
  - eapply quiet_ext_trans; apply quiet_ext_set_options.
  - apply quiet_ext_refl.
Qed.

Lemma quiet_ext_position_move (s : Engine) (mv : string) :
  quiet_ext s (position_move s mv).
Proof.
  unfold position_move. destruct (move_from_uci mv) as [m|].
  - destruct (is_legal (board s) m).
    + apply quiet_ext_set_board.
    + eapply quiet_ext_trans; [apply quiet_ext_logger | apply quiet_ext_set_board].
  - apply quiet_ext_logger.
Qed.

Lemma quiet_ext_position_moves (i : nat) (tokens : list string) (s : Engine) :
  quiet_ext s (position_moves i tokens s).
Proof.
  unfold position_moves. destruct (skipn i tokens) as [|t mvs].
  - apply quiet_ext_refl.
  - destruct (String.eqb t "moves"); [|apply quiet_ext_refl].
    apply quiet_ext_fold. apply quiet_ext_position_move.
Qed.

Lemma quiet_ext_cmd_position (tokens : list string) (s s' : Engine) (u : unit) :
  cmd_position tokens s = Done u s' \/ cmd_position tokens s = Raised s' ->
  quiet_ext s s'.
Proof.
  unfold cmd_position. destruct tokens as [|t0 rest].
  - intros [H|H]; inversion H. apply quiet_ext_refl.
  - destruct (String.eqb t0 "startpos").
    + intros [H|H]; inversion H.
      eapply quiet_ext_trans;
        [apply quiet_ext_set_board | apply quiet_ext_position_moves].
    + destruct (String.eqb t0 "fen").
      * destruct (board_from_fen _) as [b|]; intros [H|H]; inversion H.
        -- eapply quiet_ext_trans;
             [apply quiet_ext_set_board | apply quiet_ext_position_moves].
        -- apply quiet_ext_refl.
      * intros [H|H]; inversion H. apply quiet_ext_position_moves.
Qed.



Section Cooperative.

(** Every worker has exited when the join on it returns. *)
Hypothesis joins_succeed : forall t, exits_within_bound t = true.








End Cooperative.


(** ** ucinewgame *)

Lemma cmd_ucinewgame_effect (s : Engine) :
  trace (cmd_ucinewgame s)
  = trace s ++ [EvBoard initial_board; EvStopSet; EvStopSet]
    ++ join_events (search_thread s) ++ [EvStopClear]
  /\ board (cmd_ucinewgame s) = initial_board
  /\ search_thread (cmd_ucinewgame s) = None
  /\ stop_event (cmd_ucinewgame s) = false.
Proof.
  unfold cmd_ucinewgame.
  set (s1 := set_stop_event true (set_board initial_board s)).
  destruct (stop_search_effect s1) as (Ht & Hth & _ & Hb & _).
  unfold set_stop_event at 1. unfold emit. simpl.
  rewrite Ht, Hth, Hb. unfold s1. simpl.
  rewrite <- !app_assoc. simpl. auto.
Qed.

End Properties.

(** * Runs on the small rules provider *)

Module Runs.

Import Toy.

Lemma one_bestmove_per_job_witness :
  exists infos l,
    sent (search_worker [] (engine0 (quick_search 1)))
    = sent (engine0 (quick_search 1)) ++ infos ++ [l]
    /\ count_bestmove (infos ++ [l]) = 1
    /\ is_bestmove l = true.
Proof.
  destruct (one_bestmove_per_job (TH := cooperative) ["movetime"; "100"]
              (engine0 (quick_search 1)) _ eq_refl) as (_ & H & _).
  apply H.
Defined.



(** C3 fails on the code.  The search functions of the repository, [rand]
    of [dilute.py] and [rand] of [random_move.py], take five parameters, the
    fifth for the options; the worker passes four arguments, none of them
    the options.  So neither function is ever entered: the call raises
    [TypeError], and a go is answered with the traceback and the first
    legal move, e2e4, where [rand] of [dilute.py] would have returned d2d4
    and [rand] of [random_move.py], with this draw, d2d4 too. *)
Theorem options_not_passed :
  let e := engine0 (dilute_rand {| calls := []; outcome := Returns (RStr "d2d4") |}) in
  length (worker_args [] e) <> 5
  /\ ~ (exists o, nth_error (worker_args [] e) 4 = Some (ArgOptions o))
  /\ trace (search_worker [] e)
     = [EvTraceback; EvSend "bestmove e2e4"; EvLog "-> bestmove e2e4"]
  /\ min_params (search_fn e) = 5
  /\ outcome (call (rand 1 1)
                   [ArgBoard (board e); ArgLimits []; ArgStopEvent;
                    ArgInfoCallback; ArgOptions (options e)])
     = Returns (RMove "d2d4")
  /\ trace (search_worker [] (engine0 (rand 1 1)))
     = [EvTraceback; EvSend "bestmove e2e4"; EvLog "-> bestmove e2e4"].
Proof.
  split; [discriminate|]. split; [intros [o H]; discriminate H|].
  split; [vm_compute; reflexivity|]. split; [reflexivity|].
  split; vm_compute; reflexivity.
Qed.

(** A string that is no move is written out as it is. *)
Lemma invalid_result_not_replaced :
  let e := engine0 (fixed (Returns (RStr "zzzz"))) in
  invalid_result (board_copy (board e)) (RStr "zzzz") = true
  /\ sent (search_worker [] e) = ["bestmove zzzz"]
  /\ sent (search_worker [] e)
     <> [("bestmove " ++ fallback_of (board_copy (board e)))%string].
Proof.
  split; [reflexivity|]. split; [reflexivity|]. discriminate.
Qed.

(** A search function that returns [None] after a position command was
    handled: the fallback is a move of the new position, not of the copy
    the job was started with. *)
Lemma fallback_reads_held_position :
  let e := engine0 (fixed (Returns RNone)) in
  exists e',
    handle_line (TH := cooperative) "position startpos moves e2e4" e
    = Done false e'
    /\ worker_args [] e
       = [ArgBoard initial_board; ArgLimits []; ArgStopEvent; ArgInfoCallback]
    /\ fallback_of initial_board = "e2e4"
    /\ sent (worker_finish (Returns RNone) e') = ["bestmove e7e5"].
Proof.
  eexists. split; [vm_compute; reflexivity|].
  split; [reflexivity|]. split; vm_compute; reflexivity.
Qed.

Lemma none_result_falls_back_witness :
  exists infos suffix,
    sent (search_worker [] (engine0 (fixed (Returns RNone))))
    = sent (engine0 (fixed (Returns RNone))) ++ infos
      ++ [("bestmove " ++ "e2e4" ++ suffix)%string]
    /\ Forall (fun l => is_bestmove l = false) infos
    /\ (ponder_move (engine0 (fixed (Returns RNone))) = None -> suffix = "").
Proof.
  destruct (none_result_falls_back [] (engine0 (fixed (Returns RNone))) eq_refl)
    as (H & _).
  exact H.
Defined.

(** C5 fails on the code.  With a worker searching the position after
    e2e4, the handler of ucinewgame resets the held position first, and only
    then sets the stop event and joins the worker.  A worker that stops on
    the event and has no move of its own takes its fallback from the
    replaced position: it answers e2e4, which is no move of the position it
    was started on, where the first legal move is e7e5. *)
Theorem ucinewgame_resets_before_join :
  board searching = ["e2e4"]
  /\ search_thread searching = Some 0
  /\ trace (cmd_ucinewgame (TH := cooperative) searching)
     = trace searching
       ++ [EvBoard initial_board; EvStopSet; EvStopSet; EvJoin 0 true;
           EvStopClear]
  /\ fallback_of (board searching) = "e7e5"
  /\ sent (worker_finish (Returns RNone)
             (set_stop_event true (set_board initial_board searching)))
     = sent searching ++ ["bestmove e2e4"].
Proof.
  split; [vm_compute; reflexivity|].
  split; [vm_compute; reflexivity|].
  split; [vm_compute; reflexivity|].
  split; vm_compute; reflexivity.
Qed.

Lemma position_startpos_moves_witness :
  exists s',
    handle_line (TH := cooperative) "position startpos moves e2e4 e7e5"
                (engine0 (quick_search 1)) = Done false s'
    /\ board s' = ["e2e4"; "e7e5"].
Proof.
  destruct (position_startpos_moves (RP := rules) (TH := cooperative)
              "position startpos moves e2e4 e7e5" ["e2e4"; "e7e5"]
              (["e2e4"; "e7e5"] : list string) (engine0 (quick_search 1))
              eq_refl eq_refl eq_refl) as (s' & H & Hb & _).
  exists s'. split; [exact H | exact Hb].
Defined.

(** A no-break space after the command word is white space like any
    other: isready is answered, and quit ends the loop. *)
Lemma no_break_space_after_command :
  sent (run_loop (TH := cooperative) [line ("isready" ++ nbsp)]
                 (engine0 (quick_search 1))) = ["readyok"]
  /\ sent (run_loop (TH := cooperative)
                    [line ("quit" ++ nbsp); line "isready"]
                    (engine0 (quick_search 1))) = []
  /\ ~ keeps_going (line ("quit" ++ nbsp))
  /\ Str.split (wide_space ++ "go" ++ nbsp ++ "depth" ++ wide_space ++ "3")
     = ["go"; "depth"; "3"].
Proof.
  split; [vm_compute; reflexivity|]. split; [vm_compute; reflexivity|].
  split; [|vm_compute; reflexivity].
  intros [_ H]. apply H. vm_compute. reflexivity.
Qed.

Lemma dispatch_loop_survives_witness :
  sent (run_loop (TH := cooperative)
                 [line "positoin startpos moves e2e4"; line "isready"]
                 (engine0 (quick_search 1)))
  = ["readyok"]
  /\ board (run_loop (TH := cooperative)
                     [line "positoin startpos moves e2e4"]
                     (engine0 (quick_search 1))) = initial_board.
Proof.
  assert (Hpre : Forall keeps_going
                   [line "position fen not a position"; line "go movetime abc"]).
  { repeat constructor; try discriminate; vm_compute; discriminate. }
  destruct (dispatch_loop_survives (TH := cooperative)
              [line "position fen not a position"; line "go movetime abc"]
              [line "uci"] (line "positoin startpos moves e2e4")
              "positoin startpos moves e2e4" "positoin"
              ["startpos"; "moves"; "e2e4"] (engine0 (quick_search 1))
              Hpre ltac:(discriminate) eq_refl eq_refl eq_refl)
    as (_ & _ & _ & _ & _ & Hb & Hs).
  split; [exact Hs | exact Hb].
Defined.

Lemma setoption_then_uci_reflects_value_witness :
  exists s',
    handle_line (TH := cooperative)
                "setoption name Engine Path value ./stockfish"
                (engine0 (quick_search 1)) = Done false s'
    /\ Dict.get "Engine Path" (options s')
       = Some (string_option (Some "./stockfish")).
Proof.
  assert (Hn : ~ In "value" ["Engine"; "Path"]).
  { intros [H|[H|[]]]; discriminate H. }
  destruct (setoption_then_uci_reflects_value (TH := cooperative)
              "setoption name Engine Path value ./stockfish"
              ["Engine"; "Path"] ["./stockfish"] (engine0 (quick_search 1))
              eq_refl Hn eq_refl) as (_ & s' & H & _ & Hg & _).
  exists s'. split; [exact H | exact Hg].
Defined.

Lemma setoption_stores_string_record_witness :
  Dict.get "Dilution"
    (options (cmd_setoption ["name"; "Dilution"; "value"; "75"]
                (set_options [("Dilution", dilution_spin)]
                             (engine0 (quick_search 1)))))
  = Some {| opt_type := Some (PyStr "string");
            opt_default := Some (PyStr "75");
            opt_min := None; opt_max := None; opt_var := None |}.
Proof.
  assert (Hn : ~ In "value" ["Dilution"]).
  { intros [H|[]]; discriminate H. }
  assert (Hnd : NoDup (map fst (options
                  (set_options [("Dilution", dilution_spin)]
                               (engine0 (quick_search 1)))))).
  { simpl. constructor; [intros [] | constructor]. }
  destruct (setoption_stores_string_record [] ["Dilution"] (Some ["75"])
              (set_options [("Dilution", dilution_spin)]
                           (engine0 (quick_search 1)))
              (Forall_nil _) Hn Hnd) as (H & _).
  exact H.
Defined.

End Runs.

(** * Further properties of the engine *)

Lemma dict_get_set_other {V : Type} (k k0 : string) (v : V) (d : Dict.t V) :
  k0 <> k -> Dict.get k0 (Dict.set k v d) = Dict.get k0 d.
Proof.
  intros Hne. induction d as [|[k' v'] d IH]; simpl.
  - destruct (String.eqb_spec k0 k); congruence.
  - destruct (String.eqb_spec k k'); simpl.
    + subst k'. destruct (String.eqb_spec k0 k); congruence.
    + now rewrite IH.
Qed.

Lemma dict_set_keys {V : Type} (k : string) (v : V) (d : Dict.t V) :
  map fst (Dict.set k v d)
  = if Dict.mem k d then map fst d else map fst d ++ [k].
Proof.
  unfold Dict.mem. induction d as [|[k' v'] d IH]; simpl; [reflexivity|].
  destruct (String.eqb k k'); simpl; [reflexivity|].
  rewrite IH. now destruct (Dict.get k d).
Qed.

(** ** White space and tokens *)

Lemma string_length_ind (P : string -> Prop) :
  (forall s, (forall t, String.length t < String.length s -> P t) -> P s) ->
  forall s, P s.
Proof.
  intros H s. remember (String.length s) as n eqn:E. revert s E.
  induction n as [n IH] using lt_wf_ind. intros s ->.
  apply H. intros t Hlt. now apply (IH (String.length t)).
Qed.

Ltac byte_arith :=
  unfold Str.space1, Str.space2, Str.space3 in *; cbv zeta in *;
  repeat rewrite ?andb_true_iff, ?orb_true_iff, ?andb_false_iff,
    ?orb_false_iff, ?Nat.eqb_eq, ?Nat.eqb_neq, ?Nat.leb_le, ?Nat.leb_gt in *;
  lia.

(** The first byte of a white space character. *)
Lemma blank_head (c : ascii) (s : string) :
  Str.blank (String c s) = true ->
  9 <= nat_of_ascii c <= 13 \/ 28 <= nat_of_ascii c <= 32
  \/ nat_of_ascii c = 194 \/ 225 <= nat_of_ascii c <= 227.
Proof.
  simpl. destruct (Str.space1 c) eqn:E1; [intros _; byte_arith|].
  destruct s as [|c2 s2]; [discriminate|].
  destruct (Str.space2 c c2) eqn:E2; [intros _; byte_arith|].
  destruct s2 as [|c3 s3]; [discriminate|].
  destruct (Str.space3 c c2 c3) eqn:E3; [intros _; byte_arith | discriminate].
Qed.

(** Such a byte is no second or third byte of a white space character. *)
Lemma first_byte_not_inner (c : ascii) :
  9 <= nat_of_ascii c <= 13 \/ 28 <= nat_of_ascii c <= 32
  \/ nat_of_ascii c = 194 \/ 225 <= nat_of_ascii c <= 227 ->
  (forall c1, Str.space2 c1 c = false)
  /\ (forall c1 c3, Str.space3 c1 c c3 = false)
  /\ (forall c1 c2, Str.space3 c1 c2 c = false).
Proof.
  intros H. split; [|split]; intros; byte_arith.
Qed.

(** White space after a string does not change whether the string begins
    with white space characters only. *)
Lemma blank_app (p w : string) :
  Str.blank w = true -> Str.blank (p ++ w) = Str.blank p.
Proof.
  intros Hw. induction p as [p IH] using string_length_ind.
  destruct p as [|c1 p1]; [exact Hw|].
  assert (Hin : forall c s, w = String c s ->
            (forall c1, Str.space2 c1 c = false)
            /\ (forall c1 c3, Str.space3 c1 c c3 = false)
            /\ (forall c1 c2, Str.space3 c1 c2 c = false)).
  { intros c s E. apply first_byte_not_inner.
    apply (blank_head c s). now rewrite <- E. }
  simpl. destruct (Str.space1 c1); [apply IH; simpl; lia|].
  destruct p1 as [|c2 p2]; simpl.
  { destruct w as [|w1 w']; [reflexivity|].
    destruct (Hin w1 w' eq_refl) as (H2 & H3 & _).
    rewrite H2. destruct w'; [reflexivity|]. now rewrite H3. }
  destruct (Str.space2 c1 c2); [apply IH; simpl; lia|].
  destruct p2 as [|c3 p3]; simpl.
  { destruct w as [|w1 w']; [reflexivity|].
    destruct (Hin w1 w' eq_refl) as (_ & _ & H3). now rewrite H3. }
  destruct (Str.space3 c1 c2 c3); [apply IH; simpl; lia | reflexivity].
Qed.

Lemma rstrip_cons (c : ascii) (s : string) :
  Str.rstrip (String c s)
  = if Str.blank (String c s) then EmptyString else String c (Str.rstrip s).
Proof. reflexivity. Qed.

(** What [rstrip] cuts off is white space. *)
Lemma rstrip_cut (s : string) :
  exists w, s = (Str.rstrip s ++ w)%string /\ Str.blank w = true.
Proof.
  induction s as [|c s (w & E & Hw)]; [now exists EmptyString|].
  rewrite rstrip_cons. destruct (Str.blank (String c s)) eqn:Eb.
  - now exists (String c s).
  - exists w. split; [|exact Hw]. simpl. now rewrite <- E.
Qed.

Lemma rstrip_nonempty (s : string) :
  Str.rstrip s <> EmptyString -> Str.blank s = false.
Proof.
  destruct s as [|c s]; [now intros H|].
  rewrite rstrip_cons. destruct (Str.blank (String c s)); [now intros H | auto].
Qed.

Lemma strip_not_blank (raw : string) :
  Str.strip raw <> "" -> Str.blank (Str.strip raw) = false.
Proof.
  unfold Str.strip. intros Hne.
  pose proof (rstrip_nonempty _ Hne) as Hb.
  destruct (rstrip_cut (Str.lstrip raw)) as (w & E & Hw).
  pose proof (blank_app (Str.rstrip (Str.lstrip raw)) w Hw) as H.
  rewrite <- E in H. congruence.
Qed.

Lemma split_nil_iff (s : string) : Str.split s = [] <-> Str.blank s = true.
Proof.
  induction s as [s IH] using string_length_ind.
  destruct s as [|c1 s1]; [simpl; tauto|].
  assert (Hword :
            forall w : list string,
              w = (if Str.starts_space s1
                   then String c1 EmptyString :: Str.split s1
                   else match Str.split s1 with
                        | w0 :: ws => String c1 w0 :: ws
                        | [] => [String c1 EmptyString]
                        end) ->
              (w = [] <-> false = true)).
  { intros w ->. destruct (Str.starts_space s1); [split; discriminate|].
    destruct (Str.split s1); split; discriminate. }
  cbn [Str.split Str.blank]. cbv zeta.
  destruct (Str.space1 c1); [apply IH; simpl; lia|].
  destruct s1 as [|c2 s2]; [now apply Hword|].
  destruct (Str.space2 c1 c2); [apply IH; simpl; lia|].
  destruct s2 as [|c3 s3]; [now apply Hword|].
  destruct (Str.space3 c1 c2 c3); [apply IH; simpl; lia | now apply Hword].
Qed.

Lemma lstrip_blank (s : string) : Str.blank s = true -> Str.lstrip s = "".
Proof.
  induction s as [s IH] using string_length_ind.
  destruct s as [|c1 s1]; [reflexivity|]. simpl.
  destruct (Str.space1 c1); [apply IH; simpl; lia|].
  destruct s1 as [|c2 s2]; [discriminate|].
  destruct (Str.space2 c1 c2); [apply IH; simpl; lia|].
  destruct s2 as [|c3 s3]; [discriminate|].
  destruct (Str.space3 c1 c2 c3); [apply IH; simpl; lia | discriminate].
Qed.

(** ** The dispatch loop: guards and failures *)

Section Further.

Context {RP : RulesProvider} {TH : Threads}.

(** X1.  A line the loop hands to the handler has a command word: the
    index [tokens[0]] cannot fail after the test [if not line], for
    [strip] and [split] know the same white space. *)
Theorem stripped_line_has_command (raw : string) :
  Str.strip raw <> "" ->
  exists cmd args, Str.split (Str.strip raw) = cmd :: args.
Proof.
  intros H. apply strip_not_blank in H.
  destruct (Str.split (Str.strip raw)) as [|cmd args] eqn:E.
  - apply split_nil_iff in E. congruence.
  - now exists cmd, args.
Qed.

(** X2.  A line of white space only, of whatever white space characters,
    is passed over: it is not logged and no handler runs. *)
Theorem blank_line_skipped (raw : string) (rest : list string) (s : Engine) :
  raw <> "" ->
  Str.blank raw = true ->
  run_loop (raw :: rest) s = run_loop rest s.
Proof.
  intros Hraw Hsp. simpl.
  destruct (String.eqb_spec raw ""); [contradiction|].
  unfold Str.strip. rewrite (lstrip_blank raw Hsp). reflexivity.
Qed.

(** X3.  A handler that raises has changed nothing: the engine is as it
    was before the line.  Only three things raise: a line without a token,
    a position command whose FEN the rules reject, and a go command on
    which [_parse_go] raises, its clock value being no integer or an integer
    too large for a float. *)
Theorem raising_handler_changes_nothing (line : string) (s s' : Engine) :
  handle_line line s = Raised s' ->
  s' = s
  /\ (Str.split line = []
      \/ (exists args,
             Str.split line = "position" :: "fen" :: args
             /\ board_from_fen (Str.join (firstn 6 args)) = None)
      \/ (exists args,
             Str.split line = "go" :: args /\ parse_go args s = None)).
Proof.
  unfold handle_line. destruct (Str.split line) as [|cmd args].
  { intros H. injection H as <-. auto. }
  repeat match goal with
         | |- context [String.eqb cmd ?k] =>
             destruct (String.eqb_spec cmd k); [subst cmd|]
         end; try discriminate.
  - unfold cmd_position. destruct args as [|t0 rest]; [discriminate|].
    destruct (String.eqb_spec t0 "startpos"); [discriminate|].
    destruct (String.eqb_spec t0 "fen") as [->|]; [|discriminate].
    simpl skipn.
    destruct (board_from_fen (Str.join (firstn 6 rest))) eqn:E; [discriminate|].
    intros H. injection H as <-. split; [reflexivity|].
    right. left. now exists rest.
  - unfold cmd_go. destruct (parse_go args s) eqn:E; [discriminate|].
    intros H. injection H as <-. split; [reflexivity|].
    right. right. now exists args.
Qed.

Lemma handle_line_quit (line : string) (args : list string) (s : Engine) :
  Str.split line = "quit" :: args ->
  handle_line line s = Done true (cmd_quit s).
Proof. intros H. unfold handle_line. now rewrite H. Qed.

(** X4.  After lines that keep the loop going, a quit command is logged,
    stops the search, and is the last line handled: whatever follows it is
    never read. *)
Theorem nothing_after_quit
        (pre rest : list string) (raw : string) (s : Engine) :
  Forall keeps_going pre ->
  raw <> "" ->
  hd_error (Str.split (Str.strip raw)) = Some "quit" ->
  run_loop (pre ++ raw :: rest) s
  = cmd_quit (logger ("<- " ++ Str.strip raw) (run_loop pre s))
  /\ search_thread (run_loop (pre ++ raw :: rest) s) = None
  /\ sent (run_loop (pre ++ raw :: rest) s) = sent (run_loop pre s).
Proof.
  intros Hpre Hraw Hquit.
  assert (E : run_loop (pre ++ raw :: rest) s
              = cmd_quit (logger ("<- " ++ Str.strip raw) (run_loop pre s))).
  { rewrite (run_loop_app pre) by assumption.
    destruct (Str.split (Str.strip raw)) as [|cmd args] eqn:Hs;
      [discriminate|].
    injection Hquit as ->.
    assert (Hne : Str.strip raw <> "").
    { intros H0. rewrite H0 in Hs. discriminate Hs. }
    rewrite (run_loop_cons raw (Str.strip raw)) by auto.
    now rewrite (handle_line_quit _ args). }
  rewrite E. unfold cmd_quit.
  destruct (stop_search_effect (logger ("<- " ++ Str.strip raw) (run_loop pre s)))
    as (Ht & Hth & _).
  split; [reflexivity|]. split; [exact Hth|].
  unfold sent. rewrite Ht, sent_of_app.
  replace (sent_of (EvStopSet :: join_events _)) with (@nil string).
  - rewrite app_nil_r. apply sent_logger.
  - simpl. now destruct (search_thread _).
Qed.

(** ** position: every form of the command *)

Lemma position_moves_decoded (toks : list string) (s : Engine) :
  board (fold_left position_move toks s) = fold_left push (decoded toks) (board s)
  /\ sent (fold_left position_move toks s) = sent s
  /\ options (fold_left position_move toks s) = options s
  /\ search_thread (fold_left position_move toks s) = search_thread s.
Proof.
  revert s. induction toks as [|t toks IH]; intros s; simpl; [auto|].
  destruct (IH (position_move s t)) as (Hb & Hs & Ho & Hth).
  rewrite Hb, Hs, Ho, Hth. unfold decoded at 1. simpl. fold (decoded toks).
  unfold position_move.
  destruct (move_from_uci t) as [m|]; simpl.
  - destruct (is_legal (board s) m); simpl;
      rewrite ?sent_set_board, ?sent_logger; auto.
  - rewrite sent_logger. auto.
Qed.

(** X5.  [position startpos moves ...] for any tokens: the held position
    is the initial one with every token that decodes pushed in order,
    whether the move is legal there or not; a token that does not decode is
    passed over.  Nothing is sent. *)
Theorem position_startpos_any_tokens
        (line : string) (toks : list string) (s : Engine) :
  Str.split line = "position" :: "startpos" :: "moves" :: toks ->
  exists s',
    handle_line line s = Done false s'
    /\ board s' = fold_left push (decoded toks) initial_board
    /\ sent s' = sent s
    /\ options s' = options s.
Proof.
  intros Hsplit.
  exists (fold_left position_move toks (set_board initial_board s)).
  split; [unfold handle_line; now rewrite Hsplit|].
  destruct (position_moves_decoded toks (set_board initial_board s))
    as (Hb & Hs & Ho & _).
  rewrite Hb, Hs, Ho, sent_set_board. auto.
Qed.

(** X6.  A position command that starts with "moves" keeps the held
    position and pushes the moves on it; one that starts with any other
    word than "startpos", "fen" or "moves" changes nothing at all. *)
Theorem position_without_base
        (line t0 : string) (toks : list string) (s : Engine) :
  Str.split line = "position" :: t0 :: toks ->
  t0 <> "startpos" -> t0 <> "fen" ->
  exists s',
    handle_line line s = Done false s'
    /\ sent s' = sent s
    /\ (t0 = "moves" -> board s' = fold_left push (decoded toks) (board s))
    /\ (t0 <> "moves" -> s' = s).
Proof.
  intros Hsplit H1 H2.
  assert (E : handle_line line s
              = Done false (position_moves 0 (t0 :: toks) s)).
  { unfold handle_line. rewrite Hsplit. simpl.
    destruct (String.eqb_spec t0 "startpos"); [contradiction|].
    destruct (String.eqb_spec t0 "fen"); [contradiction|]. reflexivity. }
  exists (position_moves 0 (t0 :: toks) s). split; [exact E|].
  unfold position_moves. simpl skipn. cbv beta iota.
  destruct (String.eqb t0 "moves") eqn:Em.
  - apply String.eqb_eq in Em.
    destruct (position_moves_decoded toks s) as (Hb & Hs & _).
    split; [exact Hs|]. split; [auto | congruence].
  - apply String.eqb_neq in Em.
    split; [reflexivity|]. split; [congruence | auto].
Qed.

(** X7.  [position fen f1 ... f6 moves ...]: the six tokens after "fen",
    joined by single spaces, are what the rules parse.  If they reject it
    the handler raises and the engine is unchanged; else the held position
    is the parsed one with the decodable tokens pushed in order. *)
Theorem position_fen_moves
        (line : string) (f toks : list string) (s : Engine) :
  length f = 6 ->
  Str.split line = "position" :: "fen" :: f ++ "moves" :: toks ->
  match board_from_fen (Str.join f) with
  | Some b =>
      exists s',
        handle_line line s = Done false s'
        /\ board s' = fold_left push (decoded toks) b
        /\ sent s' = sent s
  | None => handle_line line s = Raised s
  end.
Proof.
  intros Hlen Hsplit.
  assert (Hf : firstn 6 (f ++ "moves" :: toks) = f).
  { rewrite <- Hlen. rewrite firstn_app, Nat.sub_diag, firstn_all. simpl.
    apply app_nil_r. }
  assert (Hs : skipn 6 (f ++ "moves" :: toks) = "moves" :: toks).
  { rewrite <- Hlen. rewrite skipn_app, Nat.sub_diag, skipn_all. reflexivity. }
  unfold handle_line. rewrite Hsplit. simpl String.eqb. cbv iota.
  unfold cmd_position. simpl String.eqb. cbv iota.
  change (skipn 1 ("fen" :: f ++ "moves" :: toks)) with (f ++ "moves" :: toks).
  rewrite Hf.
  destruct (board_from_fen (Str.join f)) as [b|]; [|reflexivity].
  eexists. split; [reflexivity|].
  unfold position_moves.
  change (skipn 7 ("fen" :: f ++ "moves" :: toks))
    with (skipn 6 (f ++ "moves" :: toks)).
  rewrite Hs. simpl String.eqb. cbv iota.
  destruct (position_moves_decoded toks (set_board b s)) as (Hb & Hse & _).
  rewrite Hb, Hse, sent_set_board. auto.
Qed.

(** ** go: the limits *)

Lemma dict_get_set {V : Type} (k k0 : string) (v : V) (d : Dict.t V) :
  Dict.get k0 (Dict.set k v d) = if String.eqb k0 k then Some v else Dict.get k0 d.
Proof.
  destruct (String.eqb_spec k0 k) as [->|Hne].
  - apply dict_get_set_same.
  - now apply dict_get_set_other.
Qed.

Lemma go_entries_set (k : string) (v : LimVal) (limits : Limits) :
  go_entries limits -> go_entry k v -> go_entries (Dict.set k v limits).
Proof.
  intros HL Hkv k0 v0. rewrite dict_get_set.
  destruct (String.eqb_spec k0 k) as [->|_]; [|apply HL].
  intros H. injection H as <-. exact Hkv.
Qed.

Lemma go_tokens_entries_aux (tokens : list string) :
  (forall limits, go_entries limits -> go_entries (go_tokens tokens limits))
  /\ (forall t limits,
        go_entries limits -> go_entries (go_tokens (t :: tokens) limits)).
Proof.
  induction tokens as [|a tokens [IH1 IH2]].
  - split; [auto|]. intros t limits HL. simpl.
    destruct (int_key t); [exact HL|].
    destruct (String.eqb_spec t "infinite") as [->|_].
    { apply go_entries_set; [exact HL|]. right. auto. }
    destruct (String.eqb_spec t "ponder") as [->|_]; [|exact HL].
    apply go_entries_set; [exact HL|]. right. auto.
  - split; [intros limits; apply IH2|]. intros t limits HL.
    change (go_tokens (t :: a :: tokens) limits)
      with (if int_key t
            then go_tokens tokens
                   (Dict.set t (match Str.int a with
                                | Some z => LInt z
                                | None => LStr a
                                end) limits)
            else if String.eqb t "infinite"
                 then go_tokens (a :: tokens) (Dict.set "infinite" LTrue limits)
                 else if String.eqb t "ponder"
                      then go_tokens (a :: tokens) (Dict.set "ponder" LTrue limits)
                      else go_tokens (a :: tokens) limits).
    destruct (int_key t) eqn:Ek.
    { apply IH1. apply go_entries_set; [exact HL|]. left. split; [exact Ek|].
      destruct (Str.int a) as [z|]; [left; now exists z | right; now exists a]. }
    destruct (String.eqb t "infinite").
    { apply IH2. apply go_entries_set; [exact HL|]. right. auto. }
    destruct (String.eqb t "ponder"); [|now apply IH2].
    apply IH2. apply go_entries_set; [exact HL|]. right. auto.
Qed.

Lemma go_tokens_entries (tokens : list string) : go_entries (go_tokens tokens []).
Proof.
  apply (proj1 (go_tokens_entries_aux tokens)). intros k v H. discriminate H.
Qed.

Lemma go_entries_int_key (limits : Limits) (k : string) (v : LimVal) :
  go_entries limits -> int_key k = true -> Dict.get k limits = Some v ->
  (exists z, v = LInt z) \/ (exists x, v = LStr x).
Proof.
  intros HL Hk Hg. destruct (HL k v Hg) as [[_ H]|[[->| ->] _]];
    [exact H | discriminate Hk | discriminate Hk].
Qed.

Lemma go_entries_no_time (limits : Limits) :
  go_entries limits -> Dict.get "time" limits = None.
Proof.
  intros HL. destruct (Dict.get "time" limits) as [v|] eqn:E; [|reflexivity].
  destruct (HL "time" v E) as [[H _]|[[H|H] _]]; discriminate H.
Qed.

Lemma time_from_cases (key : string) (limits : Limits) :
  go_entries limits -> int_key key = true ->
  match Dict.get key limits with
  | Some (LInt z) =>
      time_from key limits
      = if fits_float z
        then Some (Dict.set "time" (LFloat (inject_Z z / 1000)) limits)
        else None
  | Some (LStr _) => time_from key limits = None
  | Some _ => False
  | None => time_from key limits = Some limits
  end.
Proof.
  intros HL Hk. unfold time_from.
  destruct (Dict.get key limits) as [v|] eqn:E; [|reflexivity].
  destruct (go_entries_int_key limits key v HL Hk E) as [[z ->]|[x ->]];
    simpl; [|reflexivity].
  destruct (fits_float z); [|reflexivity].
  unfold Dict.setdefault, Dict.mem. now rewrite (go_entries_no_time limits HL).
Qed.

(** What [_parse_go] returns, by the value under the key the time is taken
    from. *)
Lemma parse_go_cases (tokens : list string) (s : Engine) :
  match Dict.get (time_key (go_tokens tokens []) s) (go_tokens tokens []) with
  | Some (LInt z) =>
      parse_go tokens s
      = if fits_float z
        then Some (Dict.set "time" (LFloat (inject_Z z / 1000))
                            (go_tokens tokens []))
        else None
  | Some (LStr _) => parse_go tokens s = None
  | Some _ => False
  | None => parse_go tokens s = Some (go_tokens tokens [])
  end.
Proof.
  pose proof (go_tokens_entries tokens) as HL.
  unfold parse_go, time_key, Dict.mem.
  set (L := go_tokens tokens []) in *.
  destruct (Dict.get "movetime" L) as [v|] eqn:Em.
  - rewrite Em.
    destruct (go_entries_int_key L "movetime" v HL eq_refl Em)
      as [[z ->]|[x ->]]; simpl; [|reflexivity].
    now destruct (fits_float z).
  - destruct (white_to_move (board s)); simpl.
    + pose proof (time_from_cases "wtime" L HL eq_refl) as H.
      destruct (Dict.get "wtime" L) as [[z|x| |q]|]; try contradiction;
        rewrite H; try reflexivity. now destruct (fits_float z).
    + pose proof (time_from_cases "btime" L HL eq_refl) as H.
      destruct (Dict.get "btime" L) as [[z|x| |q]|]; try contradiction;
        rewrite H; reflexivity.
Qed.

Lemma parse_go_frame (tokens : list string) (s : Engine) (limits : Limits) :
  parse_go tokens s = Some limits ->
  forall k, k <> "time" -> Dict.get k limits = Dict.get k (go_tokens tokens []).
Proof.
  intros Hp.
  pose proof (parse_go_cases tokens s) as Hc.
  destruct (Dict.get (time_key (go_tokens tokens []) s) (go_tokens tokens []))
    as [[z|x| |q]|]; try contradiction; rewrite Hc in Hp; try discriminate.
  - destruct (fits_float z); [|discriminate]. injection Hp as <-.
    intros k Hk. now apply dict_get_set_other.
  - injection Hp as <-. reflexivity.
Qed.

(** X8.  The limits a go command hands to the worker hold the nine integer
    keys with an integer, or with the token as text when it is no integer,
    the flags infinite and ponder with [True], and time with a float;
    nothing else. *)
Theorem limits_hold_known_keys
        (tokens : list string) (s : Engine) (limits : Limits)
        (k : string) (v : LimVal) :
  parse_go tokens s = Some limits ->
  Dict.get k limits = Some v ->
  go_entry k v \/ (k = "time" /\ exists q, v = LFloat q).
Proof.
  intros Hp Hg.
  pose proof (go_tokens_entries tokens) as HL.
  pose proof (parse_go_cases tokens s) as Hc.
  destruct (Dict.get (time_key (go_tokens tokens []) s) (go_tokens tokens []))
    as [[z|x| |q]|]; try contradiction; rewrite Hc in Hp; try discriminate.
  - destruct (fits_float z); [|discriminate].
    injection Hp as <-. rewrite dict_get_set in Hg.
    destruct (String.eqb_spec k "time") as [->|_].
    + injection Hg as <-. right. split; [reflexivity|]. now eexists.
    + left. now apply HL.
  - injection Hp as <-. left. now apply HL.
Qed.

(** X9.  A go command raises exactly when the clock value it takes the
    time from -- movetime if given, else the clock of the side to move --
    cannot be divided by [1000.0]: it is no integer, or it is an integer too
    large to convert to a float.  Then no worker is started and the engine
    is unchanged. *)
Theorem go_raises_iff_clock_unusable (tokens : list string) (s : Engine) :
  (parse_go tokens s = None
   <-> (exists x,
           Dict.get (time_key (go_tokens tokens []) s) (go_tokens tokens [])
           = Some (LStr x))
       \/ (exists z,
              Dict.get (time_key (go_tokens tokens []) s) (go_tokens tokens [])
              = Some (LInt z)
              /\ (float_limit <= Z.abs z)%Z))
  /\ (parse_go tokens s = None -> cmd_go tokens s = Raised s).
Proof.
  split.
  - pose proof (parse_go_cases tokens s) as Hc.
    destruct (Dict.get (time_key (go_tokens tokens []) s) (go_tokens tokens []))
      as [[z|x| |q]|]; try contradiction; rewrite Hc.
    + unfold fits_float. destruct (Z.ltb_spec (Z.abs z) float_limit).
      * split; [discriminate|].
        intros [[x H0]|[z0 [H0 H1]]]; [discriminate H0|].
        injection H0 as <-. lia.
      * split; [|reflexivity]. intros _. right. now exists z.
    + split; [|reflexivity]. intros _. left. now exists x.
    + split; [discriminate|].
      intros [[x H0]|[z0 [H0 _]]]; discriminate H0.
  - intros H. unfold cmd_go. now rewrite H.
Qed.

(** X10.  When go parses, the derived time is the integer under that clock
    key divided by 1000, there is no time when the key is absent, and every
    other key is as the token loop left it: increments and movestogo play no
    part. *)
Theorem go_time_from_clock
        (tokens : list string) (s : Engine) (limits : Limits) :
  parse_go tokens s = Some limits ->
  Dict.get "time" limits
  = match Dict.get (time_key (go_tokens tokens []) s) (go_tokens tokens []) with
    | Some (LInt z) => Some (LFloat (inject_Z z / 1000))
    | _ => None
    end
  /\ (forall k, k <> "time" ->
                Dict.get k limits = Dict.get k (go_tokens tokens [])).
Proof.
  intros Hp.
  pose proof (go_entries_no_time _ (go_tokens_entries tokens)) as Hnt.
  pose proof (parse_go_cases tokens s) as Hc.
  destruct (Dict.get (time_key (go_tokens tokens []) s) (go_tokens tokens []))
    as [[z|x| |q]|]; try contradiction; rewrite Hc in Hp; try discriminate.
  - destruct (fits_float z); [|discriminate]. injection Hp as <-.
    split; [apply dict_get_set_same|].
    intros k Hk. now apply dict_get_set_other.
  - injection Hp as <-. split; [exact Hnt | reflexivity].
Qed.

Lemma go_tokens_skip (junk rest : list string) (limits : Limits) :
  Forall (fun t => go_keyword t = false) junk ->
  go_tokens (junk ++ rest) limits = go_tokens rest limits.
Proof.
  induction 1 as [|t junk Ht _ IH]; [reflexivity|].
  unfold go_keyword in Ht. apply orb_false_elim in Ht. destruct Ht as [Ht H3].
  apply orb_false_elim in Ht. destruct Ht as [H1 H2].
  simpl. now rewrite H1, H2, H3.
Qed.

(** X11.  Tokens that are no keyword of go are passed over one by one, and
    an integer key that is the last token, with no value after it, stores
    nothing. *)
Theorem go_ignores_unknown_tokens
        (junk rest : list string) (k : string) (limits : Limits) :
  Forall (fun t => go_keyword t = false) junk ->
  int_key k = true ->
  go_tokens (junk ++ rest) limits = go_tokens rest limits
  /\ go_tokens (junk ++ [k]) limits = limits.
Proof.
  intros Hj Hk. split; [now apply go_tokens_skip|].
  rewrite go_tokens_skip by assumption. simpl. now rewrite Hk.
Qed.

(** X12.  After a go command that parsed, the ponder flag tells whether
    the word ponder was among the keywords, the stop event is clear, the
    handle names the new worker, and position and options are untouched. *)
Theorem go_sets_ponder_flag (tokens : list string) (s s' : Engine) :
  cmd_go tokens s = Done tt s' ->
  ponder s' = Dict.mem "ponder" (go_tokens tokens [])
  /\ stop_event s' = false
  /\ search_thread s' = Some (spawned s)
  /\ board s' = board s
  /\ options s' = options s.
Proof.
  unfold cmd_go. destruct (parse_go tokens s) as [limits|] eqn:Hp;
    [|discriminate].
  intros H. injection H as <-.
  pose proof (parse_go_frame tokens s limits Hp) as Hframe.
  assert (Hpo : forall b l,
             ponder (start_search l (set_ponder b s)) = b
             /\ stop_event (start_search l (set_ponder b s)) = false
             /\ search_thread (start_search l (set_ponder b s)) = Some (spawned s)
             /\ board (start_search l (set_ponder b s)) = board s
             /\ options (start_search l (set_ponder b s)) = options s).
  { intros b l. unfold start_search, stop_search. simpl.
    destruct (search_thread s); simpl; auto. }
  destruct (Hpo (match Dict.get "ponder" limits with
                 | Some v => lim_truthy v
                 | None => false
                 end) limits) as (H1 & H2 & H3 & H4 & H5).
  split; [|auto].
  rewrite H1, (Hframe "ponder") by discriminate.
  unfold Dict.mem.
  destruct (Dict.get "ponder" (go_tokens tokens [])) as [v|] eqn:E;
    [|reflexivity].
  destruct (go_tokens_entries tokens "ponder" v E) as [[H _]|[_ ->]];
    [discriminate H | reflexivity].
Qed.

(** ** The search lifecycle: what every run keeps *)

Lemma handle_line_raised_same (line : string) (s s' : Engine) :
  handle_line line s = Raised s' -> s' = s.
Proof.
  unfold handle_line. destruct (Str.split line) as [|cmd args].
  { intros H. now injection H as <-. }
  repeat match goal with
         | |- context [String.eqb cmd ?k] => destruct (String.eqb cmd k)
         end; try discriminate.
  - unfold cmd_position. destruct args as [|t0 rest]; [discriminate|].
    destruct (String.eqb t0 "startpos"); [discriminate|].
    destruct (String.eqb t0 "fen"); [|discriminate].
    destruct (board_from_fen _); [discriminate|].
    intros H. now injection H as <-.
  - unfold cmd_go. destruct (parse_go args s); [discriminate|].
    intros H. now injection H as <-.
Qed.

Section Preserved.

(** A property of the engine kept by quiet steps, by stopping the search
    and by starting a worker when none is held, is kept by every handler
    and so by the loop. *)
Variable P : Engine -> Prop.
Hypothesis P_quiet : forall s s', quiet_ext s s' -> P s -> P s'.
Hypothesis P_stop : forall s, P s -> P (stop_search true s).
Hypothesis P_spawn :
  forall limits s, P s -> search_thread s = None -> P (spawn limits s).

Lemma preserved_start_search (limits : Limits) (s : Engine) :
  P s -> P (start_search limits s).
Proof.
  intros H. unfold start_search. apply P_spawn.
  - apply (P_quiet _ _ (quiet_ext_set_stop_event false _)). now apply P_stop.
  - destruct (stop_search_effect s) as (_ & Hth & _). exact Hth.
Qed.

Lemma preserved_handle_line (line : string) (s s' : Engine) (b : bool) :
  handle_line line s = Done b s' \/ handle_line line s = Raised s' ->
  P s -> P s'.
Proof.
  intros [H|H] Hs.
  - revert H. unfold handle_line.
    destruct (Str.split line) as [|cmd args]; [discriminate|].
    repeat match goal with
           | |- context [String.eqb cmd ?k] => destruct (String.eqb cmd k)
           end.
    + intros H; inversion H; subst.
      now apply (P_quiet _ _ (quiet_ext_cmd_uci _)).
    + intros H; inversion H; subst.
      now apply (P_quiet _ _ (quiet_ext_send _ _)).
    + intros H; inversion H; subst.
      now apply (P_quiet _ _ (quiet_ext_cmd_setoption _ _)).
    + intros H; inversion H; subst. unfold cmd_ucinewgame.
      apply (P_quiet _ _ (quiet_ext_set_stop_event false _)).
      apply P_stop.
      apply (P_quiet _ _ (quiet_ext_set_stop_event true _)).
      now apply (P_quiet _ _ (quiet_ext_set_board initial_board _)).
    + destruct (cmd_position args s) as [[] s1|s1] eqn:E;
        intros H; inversion H; subst.
      apply (P_quiet s); auto.
      apply (quiet_ext_cmd_position args s s' tt). now left.
    + unfold cmd_go. destruct (parse_go args s) as [limits|];
        intros H; inversion H; subst.
      apply preserved_start_search.
      now apply (P_quiet _ _ (quiet_ext_set_ponder _ _)).
    + intros H; inversion H; subst. now apply P_stop.
    + intros H; inversion H; subst.
      now apply (P_quiet _ _ (quiet_ext_set_ponder _ _)).
    + intros H; inversion H; subst. now apply P_stop.
    + intros H; inversion H; subst.
      now apply (P_quiet _ _ (quiet_ext_logger _ _)).
  - apply handle_line_raised_same in H. now subst.
Qed.

Lemma preserved_run_loop (lines : list string) (s : Engine) :
  P s -> P (run_loop lines s).
Proof.
  revert s. induction lines as [|raw rest IH]; intros s Hs; simpl; [exact Hs|].
  destruct (String.eqb raw ""); [exact Hs|].
  destruct (String.eqb (Str.strip raw) ""); [now apply IH|].
  pose proof (P_quiet _ _ (quiet_ext_logger ("<- " ++ Str.strip raw) s) Hs)
    as H1.
  destruct (handle_line (Str.strip raw) _) as [[|] s'|s'] eqn:E.
  - eapply preserved_handle_line; [left; exact E | exact H1].
  - apply IH. eapply preserved_handle_line; [left; exact E | exact H1].
  - apply IH. apply (P_quiet s'); [now apply quiet_ext_emit|].
    eapply (preserved_handle_line _ _ _ true); [right; exact E | exact H1].
Qed.

End Preserved.

Lemma ids_of_quiet (evs : list Event) :
  forallb quiet evs = true -> spawned_ids evs = [] /\ joined_ids evs = [].
Proof.
  induction evs as [|e evs IH]; simpl; [auto|].
  intros H. apply andb_prop in H. destruct H as [He Hevs].
  destruct (IH Hevs) as [-> ->]. destruct e; simpl in *; auto; discriminate.
Qed.

Lemma joined_in_order_quiet (s s' : Engine) :
  quiet_ext s s' -> joined_in_order s -> joined_in_order s'.
Proof.
  intros (Hth & Hsp & evs & Htr & Hq) [H1 H2].
  destruct (ids_of_quiet evs Hq) as [E1 E2].
  unfold joined_in_order, held in *.
  rewrite Htr, Hth, Hsp.
  unfold spawned_ids, joined_ids in *. rewrite !flat_map_app, E1, E2.
  rewrite !app_nil_r. auto.
Qed.

Lemma joined_in_order_stop (s : Engine) :
  joined_in_order s -> joined_in_order (stop_search true s).
Proof.
  intros [H1 H2]. destruct (stop_search_effect s) as (Ht & Hth & Hsp & _).
  unfold joined_in_order, held, spawned_ids, joined_ids in *.
  rewrite Ht, Hth, Hsp, !flat_map_app.
  destruct (search_thread s) as [t|]; simpl; rewrite ?app_nil_r in *; auto.
Qed.

Lemma joined_in_order_spawn (limits : Limits) (s : Engine) :
  joined_in_order s -> search_thread s = None ->
  joined_in_order (spawn limits s).
Proof.
  intros [H1 H2] Hth. unfold joined_in_order, held, spawned_ids, joined_ids in *.
  rewrite Hth, app_nil_r in H2.
  change (trace (spawn limits s)) with (trace s ++ [EvSpawn (spawned s) limits]).
  change (search_thread (spawn limits s)) with (Some (spawned s)).
  change (spawned (spawn limits s)) with (S (spawned s)).
  rewrite seq_S, !flat_map_app, H1, H2. simpl. rewrite !app_nil_r. auto.
Qed.

(** X13.  Along any run from a fresh engine the workers are numbered in
    the order they are started, and each is joined once, before the next is
    started; when [run] returns, every worker it started has been joined,
    no handle is left and the stop event is set. *)
Theorem every_worker_joined_once
        (lines : list string) (f : option SearchFn) (nm au : string) :
  joined_in_order (run_loop lines (init f nm au))
  /\ spawned_ids (trace (run lines (init f nm au)))
     = seq 0 (spawned (run lines (init f nm au)))
  /\ joined_ids (trace (run lines (init f nm au)))
     = seq 0 (spawned (run lines (init f nm au)))
  /\ NoDup (joined_ids (trace (run lines (init f nm au))))
  /\ search_thread (run lines (init f nm au)) = None
  /\ stop_event (run lines (init f nm au)) = true.
Proof.
  assert (H0 : joined_in_order (init f nm au)) by (split; reflexivity).
  pose proof (preserved_run_loop joined_in_order joined_in_order_quiet
                joined_in_order_stop joined_in_order_spawn lines _ H0) as Hl.
  pose proof (joined_in_order_stop _ Hl) as [H1 H2].
  destruct (stop_search_effect (run_loop lines (init f nm au)))
    as (_ & Hth & _ & _ & Hev).
  unfold run in *. unfold held in H2. rewrite Hth, app_nil_r in H2.
  split; [exact Hl|]. split; [exact H1|]. split; [exact H2|].
  split; [rewrite H2; apply seq_NoDup|]. split; assumption.
Qed.

(** X14.  A stop command after a go command joins the worker that go
    started, and no other; the handle is dropped and the stop event stays
    set until the next go. *)
Theorem stop_joins_the_worker_of_go (tokens : list string) (s s' : Engine) :
  cmd_go tokens s = Done tt s' ->
  trace (cmd_stop s')
  = trace s' ++ [EvStopSet;
                 EvJoin (spawned s) (exits_within_bound (spawned s))]
  /\ search_thread (cmd_stop s') = None
  /\ stop_event (cmd_stop s') = true
  /\ trace (cmd_stop (cmd_stop s')) = trace (cmd_stop s') ++ [EvStopSet].
Proof.
  intros Hgo. destruct (cmd_go_effect tokens s s' Hgo) as (_ & _ & _ & Hth).
  unfold cmd_stop.
  destruct (stop_search_effect s') as (Ht & Hn & _ & _ & He).
  destruct (stop_search_effect (stop_search true s')) as (Ht2 & _).
  rewrite Ht2, Hn, Ht, Hth. simpl. auto.
Qed.

(** X15.  After ucinewgame the held position is the initial one, no worker
    handle is held and the stop event is clear; the options set so far are
    kept, and nothing is sent. *)
Theorem ucinewgame_leaves_fresh_game (s : Engine) :
  board (cmd_ucinewgame s) = initial_board
  /\ search_thread (cmd_ucinewgame s) = None
  /\ stop_event (cmd_ucinewgame s) = false
  /\ options (cmd_ucinewgame s) = options s
  /\ ponder (cmd_ucinewgame s) = ponder s
  /\ sent (cmd_ucinewgame s) = sent s.
Proof.
  destruct (cmd_ucinewgame_effect s) as (Ht & Hb & Hth & He).
  split; [exact Hb|]. split; [exact Hth|]. split; [exact He|].
  split; [|split].
  - unfold cmd_ucinewgame, stop_search. simpl.
    destruct (search_thread s); reflexivity.
  - unfold cmd_ucinewgame, stop_search. simpl.
    destruct (search_thread s); reflexivity.
  - unfold sent. rewrite Ht, !sent_of_app. simpl.
    destruct (search_thread s); simpl; now rewrite app_nil_r.
Qed.

(** ** The worker: what it touches and what it answers *)

Lemma same_session_refl (s : Engine) : same_session s s.
Proof. repeat split. Qed.

Lemma same_session_trans (s1 s2 s3 : Engine) :
  same_session s1 s2 -> same_session s2 s3 -> same_session s1 s3.
Proof.
  unfold same_session. intros H1 H2.
  repeat match goal with H : _ /\ _ |- _ => destruct H end.
  repeat split; congruence.
Qed.

Lemma same_session_info_callback (now : Q) (info : Info) (s : Engine) :
  same_session s (info_callback now info s).
Proof.
  destruct (info_callback_cases now info s) as [[_ ->]|[_ ->]].
  - repeat split.
  - apply same_session_refl.
Qed.

Lemma same_session_run_callbacks (cs : list (Q * Info)) (s : Engine) :
  same_session s (run_callbacks cs s).
Proof.
  unfold run_callbacks. revert s.
  induction cs as [|c cs IH]; intros s; simpl.
  - apply same_session_refl.
  - eapply same_session_trans; [apply same_session_info_callback | apply IH].
Qed.

Lemma same_session_worker_finish (o : Outcome) (s : Engine) :
  same_session s (worker_finish o s).
Proof. destruct o; repeat split. Qed.

(** X16.  A worker run writes to stdout, the logger and the throttle clock
    and to nothing else: position, options, handle, stop event, ponder
    state and search function are as before, whatever the search function
    does. *)
Theorem worker_keeps_session (limits : Limits) (s : Engine) :
  same_session s (search_worker limits s)
  /\ (forall cs, same_session s (run_callbacks cs s))
  /\ (forall o, same_session s (worker_finish o s)).
Proof.
  split; [|split].
  - unfold search_worker.
    eapply same_session_trans;
      [apply same_session_run_callbacks | apply same_session_worker_finish].
  - intros cs. apply same_session_run_callbacks.
  - intros o. apply same_session_worker_finish.
Qed.

(** X17.  An engine made without a search function does not fail on go:
    the worker catches the [NotImplementedError] of the default, prints the
    traceback and answers with the first legal move of the held position,
    or "(none)". *)
Theorem default_search_answers_fallback
        (limits : Limits) (nm au : string) (s : Engine) :
  search_fn (init None nm au) = default_search_fn
  /\ (search_fn s = default_search_fn ->
      trace (search_worker limits s)
      = trace s ++ [EvTraceback;
                    EvSend ("bestmove " ++ fallback_of (board s));
                    EvLog ("-> bestmove " ++ fallback_of (board s))]).
Proof.
  split; [reflexivity|]. intros Hf.
  unfold search_worker. rewrite Hf.
  change (call default_search_fn (worker_args limits s))
    with {| calls := []; outcome := Raises |}.
  cbn [calls outcome]. unfold run_callbacks. cbn [fold_left].
  unfold worker_finish. rewrite trace_send. simpl.
  now rewrite <- app_assoc.
Qed.

(** X18.  A returned pair is answered with its first item as move and its
    second as ponder move, as [str] renders them: the engine's own ponder
    move is not looked at, an empty second item gives no ponder part, and a
    second item [None] gives the text "ponder None". *)
Theorem pair_result_line (a b : Item) (s : Engine) :
  sent (worker_finish (Returns (RTuple a b)) s)
  = sent s
    ++ [if Str.truthy (item_str b)
        then ("bestmove " ++ item_str a ++ " ponder " ++ item_str b)%string
        else ("bestmove " ++ item_str a)%string]
  /\ sent (worker_finish (Returns (RTuple a ItNone)) s)
     = sent s ++ [("bestmove " ++ item_str a ++ " ponder None")%string].
Proof.
  split; rewrite worker_finish_sent; reflexivity.
Qed.

(** ** The throttle clock *)

(** X19.  While every call comes less than 50 ms after the last line sent
    -- also when the system clock was set back behind it -- nothing is sent
    and the engine stays as it is, however many calls there are. *)
Theorem calls_inside_window_dropped (cs : list (Q * Info)) (s : Engine) :
  Forall (fun c => (fst c - last_info_time s < 5 # 100)%Q) cs ->
  run_callbacks cs s = s.
Proof.
  unfold run_callbacks. induction 1 as [|c cs Hc _ IH]; simpl; [reflexivity|].
  now rewrite (info_callback_dropped (fst c) (snd c) s Hc).
Qed.

Lemma last_cons_default {A : Type} (x d : A) (l : list A) :
  last (x :: l) d = last l x.
Proof.
  revert x d. induction l as [|y l IH]; intros x d; [reflexivity|].
  change (last (x :: y :: l) d) with (last (y :: l) d).
  now rewrite !IH.
Qed.

Lemma last_info_time_run_callbacks (cs : list (Q * Info)) (s : Engine) :
  last_info_time (run_callbacks cs s)
  = last (map fst (emitted (last_info_time s) cs)) (last_info_time s).
Proof.
  unfold run_callbacks. revert s.
  induction cs as [|[now info] cs IH]; intros s; simpl; [reflexivity|].
  rewrite IH.
  destruct (info_callback_cases now info s) as [[Hq E]|[Hq E]];
    rewrite E, Hq; [|reflexivity].
  cbn [map fst]. rewrite last_cons_default. reflexivity.
Qed.

Lemma emitted_last_ge (cs : list (Q * Info)) (t : Q) :
  (t <= last (map fst (emitted t cs)) t)%Q.
Proof.
  revert t. induction cs as [|c cs IH]; intros t; simpl; [lra|].
  destruct (Qle_bool (5 # 100) (fst c - t)) eqn:E; [|apply IH].
  apply Qle_bool_iff in E. cbn [map]. rewrite last_cons_default.
  specialize (IH (fst c)). lra.
Qed.

(** X20.  The time kept for the throttle is the clock reading of the last
    line sent, and it never goes back: calls that are dropped leave it, and
    a line is sent only 50 ms or more after it. *)
Theorem throttle_clock_never_goes_back (cs : list (Q * Info)) (s : Engine) :
  last_info_time (run_callbacks cs s)
  = last (map fst (emitted (last_info_time s) cs)) (last_info_time s)
  /\ (last_info_time s <= last_info_time (run_callbacks cs s))%Q.
Proof.
  split; [apply last_info_time_run_callbacks|].
  rewrite last_info_time_run_callbacks. apply emitted_last_ge.
Qed.

(** ** The search functions that come with the engine *)

Lemma one_move_info_line (mv : Move) :
  info_line (one_move_info mv)
  = ("info depth 1 nodes 1 pv " ++ move_uci mv ++ " time 0")%string.
Proof.
  unfold info_line, one_move_info. simpl.
  unfold Str.join. simpl. reflexivity.
Qed.

(** X21.  Run as a script, the engine answers a go with the first legal
    move of the held position, or "(none)": [quick_search] finds that move
    on its copy, reports it in one info line, which the throttle may drop,
    and returns it; on a position without a move it returns [None] and the
    worker's fallback gives "(none)".  The copy is taken to have the legal
    moves of the position copied. *)
Theorem quick_search_answers_first_legal
        (now : Q) (limits : Limits) (s : Engine) :
  search_fn s = quick_search now ->
  legal_moves (board_copy (board s)) = legal_moves (board s) ->
  exists infos,
    sent (search_worker limits s)
    = sent s ++ infos
      ++ [bestmove_line (fallback_of (board s)) (ponder_move s)]
    /\ (infos = []
        \/ exists mv rest,
            legal_moves (board s) = mv :: rest
            /\ (5 # 100 <= now - last_info_time s)%Q
            /\ infos
               = [("info depth 1 nodes 1 pv " ++ move_uci mv ++ " time 0")%string]).
Proof.
  intros Hf Hcopy.
  assert (Hpm : forall r w, ponder_move w = ponder_move s ->
                  (forall a b, r <> RTuple a b) ->
                  bestmove_line (fallback_of (board s)) (ponder_of r w)
                  = bestmove_line (fallback_of (board s)) (ponder_move s)).
  { intros r w Hw Hr. unfold ponder_of.
    destruct r; try (now exfalso; eapply Hr); rewrite Hw;
      destruct (ponder_move s) as [p|]; simpl; auto;
        destruct (Str.truthy p) eqn:Et; simpl; rewrite ?Et; auto. }
  unfold search_worker. rewrite Hf.
  change (call (quick_search now) (worker_args limits s))
    with (match legal_moves (board_copy (board s)) with
          | mv :: _ =>
              {| calls := [(now, one_move_info mv)];
                 outcome := Returns (RMove mv) |}
          | [] => {| calls := []; outcome := Returns RNone |}
          end).
  rewrite Hcopy. unfold fallback_of.
  destruct (legal_moves (board s)) as [|mv rest] eqn:El.
  - exists []. cbn [calls outcome]. unfold run_callbacks. cbn [fold_left].
    rewrite worker_finish_sent. split; [|now left].
    unfold best_of, first_legal. rewrite El.
    pose proof (Hpm RNone s eq_refl ltac:(discriminate)) as H.
    unfold fallback_of in H. rewrite El in H. now rewrite H.
  - cbn [calls outcome].
    destruct (run_callbacks_sent [(now, one_move_info mv)] s) as (Hs & _ & Hp).
    rewrite worker_finish_sent, Hs. cbn [best_of].
    pose proof (Hpm (RMove mv) (run_callbacks [(now, one_move_info mv)] s)
                  Hp ltac:(discriminate)) as H.
    unfold fallback_of in H. rewrite El in H. rewrite H.
    rewrite <- app_assoc.
    eexists. split; [reflexivity|].
    cbn [emitted fst].
    destruct (Qle_bool (5 # 100) (now - last_info_time s)) eqn:Eq.
    + right. exists mv, rest. split; [reflexivity|].
      split; [now apply Qle_bool_iff|].
      cbn [map snd]. now rewrite one_move_info_line.
    + now left.
Qed.

(** X22.  [rand] of [random_move.py], called with its five arguments,
    returns a legal move of the board it is given after reporting it once,
    and raises on a board without a legal move: its handler for
    [StopIteration] never runs, so it never returns [None].  The worker of
    [py_uci.py], which passes four arguments, does not get into it. *)
Theorem rand_returns_legal_move_or_raises
        (pick : nat) (now : Q) (b : Board) (a2 a3 a5 : PyArg)
        (limits : Limits) (s : Engine) :
  (legal_moves b = [] ->
   call (rand pick now) [ArgBoard b; a2; a3; ArgInfoCallback; a5]
   = {| calls := []; outcome := Raises |})
  /\ (legal_moves b <> [] ->
      exists mv,
        In mv (legal_moves b)
        /\ call (rand pick now) [ArgBoard b; a2; a3; ArgInfoCallback; a5]
           = {| calls := [(now, one_move_info mv)];
                outcome := Returns (RMove mv) |})
  /\ outcome (call (rand pick now) [ArgBoard b; a2; a3; ArgInfoCallback; a5])
     <> Returns RNone
  /\ call (rand pick now) (worker_args limits s)
     = {| calls := []; outcome := Raises |}.
Proof.
  assert (E : call (rand pick now) [ArgBoard b; a2; a3; ArgInfoCallback; a5]
              = match nth_error (legal_moves b)
                                (pick mod length (legal_moves b)) with
                | Some mv => {| calls := [(now, one_move_info mv)];
                                outcome := Returns (RMove mv) |}
                | None => {| calls := []; outcome := Raises |}
                end).
  { unfold call. simpl.
    destruct (nth_error (legal_moves b) _); reflexivity. }
  split; [|split; [|split]].
  - intros H. rewrite E, H. now destruct (pick mod length []).
  - intros H. rewrite E.
    assert (Hlt : pick mod length (legal_moves b) < length (legal_moves b)).
    { apply Nat.mod_upper_bound. destruct (legal_moves b); simpl; congruence. }
    destruct (nth_error (legal_moves b) (pick mod length (legal_moves b)))
      as [mv|] eqn:En.
    + exists mv. split; [eapply nth_error_In; exact En | reflexivity].
    + apply nth_error_None in En. lia.
  - rewrite E. destruct (nth_error (legal_moves b) _); discriminate.
  - reflexivity.
Qed.

(** ** setoption and the handshake *)

Lemma dict_get_none_keys {V : Type} (k : string) (d : Dict.t V) :
  Dict.get k d = None -> ~ In k (map fst d).
Proof.
  induction d as [|[k' v'] d IH]; simpl; [tauto|].
  destruct (String.eqb_spec k k'); [discriminate|].
  intros H [H1|H1]; [congruence | now apply IH].
Qed.

Lemma dict_set_nodup {V : Type} (k : string) (v : V) (d : Dict.t V) :
  NoDup (map fst d) -> NoDup (map fst (Dict.set k v d)).
Proof.
  intros Hnd. rewrite dict_set_keys. unfold Dict.mem.
  destruct (Dict.get k d) eqn:E; [exact Hnd|].
  apply NoDup_app; [exact Hnd | repeat constructor; auto |].
  intros x Hx [<-|[]]. now apply (dict_get_none_keys k d E).
Qed.

(** X23.  A setoption command with a name leaves every other option as it
    was; an option set again keeps its place in the order of the handshake,
    a new one goes to the end; names stay distinct, and neither the position
    nor the output is touched. *)
Theorem setoption_keeps_other_options
        (tokens : list string) (nm : string) (value : option string)
        (s : Engine) :
  parse_setoption tokens = (Some nm, value) ->
  (forall k, k <> nm ->
             Dict.get k (options (cmd_setoption tokens s))
             = Dict.get k (options s))
  /\ map fst (options (cmd_setoption tokens s))
     = (if Dict.mem nm (options s) then map fst (options s)
        else map fst (options s) ++ [nm])
  /\ (NoDup (map fst (options s)) ->
      NoDup (map fst (options (cmd_setoption tokens s))))
  /\ board (cmd_setoption tokens s) = board s
  /\ trace (cmd_setoption tokens s) = trace s.
Proof.
  intros Hp. destruct (setoption_effect tokens nm value s Hp) as (Ht & Hb & Ho).
  rewrite Ho. split; [|split; [|split; [|split]]]; auto.
  - intros k Hk. now apply dict_get_set_other.
  - apply dict_set_keys.
  - apply dict_set_nodup.
Qed.

(** X24.  A setoption command from which no name is parsed -- the word
    "value" comes before any "name", or neither word occurs -- is dropped
    without a trace: nothing is stored, sent or logged. *)
Theorem setoption_without_name_ignored
        (pre : list string) (tail : option (list string)) (s : Engine) :
  Forall (fun t => t <> "name" /\ t <> "value") pre ->
  cmd_setoption
    (pre ++ match tail with Some rest => "value" :: rest | None => [] end) s
  = s.
Proof.
  intros Hpre. unfold cmd_setoption.
  assert (E : fst (parse_setoption
                     (pre ++ match tail with
                             | Some rest => "value" :: rest
                             | None => []
                             end)) = None).
  { induction Hpre as [|t pre [H1 H2] _ IH]; simpl.
    - destruct tail; reflexivity.
    - destruct (String.eqb_spec t "name"); [contradiction|].
      destruct (String.eqb_spec t "value"); [contradiction|]. exact IH. }
  destruct (parse_setoption _) as [[nm|] v]; [discriminate E | reflexivity].
Qed.

(** X25.  The handshake sends the two id lines, one option line for each
    option in the order of the registry, and uciok last: three lines more
    than there are options.  It changes nothing in the engine. *)
Theorem uci_handshake_lines (s : Engine) :
  sent (cmd_uci s)
  = sent s
    ++ [("id name " ++ name s)%string; ("id author " ++ author s)%string]
    ++ option_lines (options s) ++ ["uciok"]
  /\ length (sent (cmd_uci s)) = length (sent s) + length (options s) + 3
  /\ same_session s (cmd_uci s).
Proof.
  split; [apply sent_cmd_uci|]. split.
  - rewrite sent_cmd_uci. unfold option_lines.
    rewrite !length_app, length_map. simpl. lia.
  - unfold cmd_uci.
    assert (Hsend : forall l st, same_session st (send l st))
      by (intros; repeat split).
    assert (Hfold : forall d st,
               same_session st
                 (fold_left (fun st kv => send (option_line (fst kv) (snd kv)) st)
                            d st)).
    { induction d as [|kv d IH]; intros st; simpl.
      - apply same_session_refl.
      - eapply same_session_trans; [apply Hsend | apply IH]. }
    eapply same_session_trans; [apply Hsend|].
    eapply same_session_trans; [apply Hsend|].
    eapply same_session_trans; [apply Hfold | apply Hsend].
Qed.

End Further.

(** * Further runs on the small rules provider *)

Module FurtherRuns.

#[local] Existing Instance Toy.rules.

Lemma stripped_line_has_command_witness :
  exists cmd args,
    Str.split (Str.strip (Toy.line (Toy.nbsp ++ " go depth 3 " ++ Toy.nbsp)))
    = cmd :: args.
Proof.
  apply stripped_line_has_command.
  intros H. vm_compute in H. discriminate H.
Defined.

Lemma blank_line_skipped_witness :
  run_loop (TH := Toy.cooperative)
           [Toy.line (" " ++ Toy.nbsp ++ Toy.wide_space); Toy.line "isready"]
           (Toy.engine0 (quick_search 1))
  = run_loop (TH := Toy.cooperative) [Toy.line "isready"]
             (Toy.engine0 (quick_search 1)).
Proof.
  apply blank_line_skipped.
  - intros H. vm_compute in H. discriminate H.
  - vm_compute. reflexivity.
Defined.

Lemma raising_handler_changes_nothing_witness :
  Str.split "go movetime abc" = []
  \/ (exists args,
         Str.split "go movetime abc" = "position" :: "fen" :: args
         /\ board_from_fen (Str.join (firstn 6 args)) = None)
  \/ (exists args,
         Str.split "go movetime abc" = "go" :: args
         /\ parse_go args (Toy.engine0 (quick_search 1)) = None).
Proof.
  assert (H : handle_line (TH := Toy.cooperative) "go movetime abc"
                          (Toy.engine0 (quick_search 1))
              = Raised (Toy.engine0 (quick_search 1))).
  { vm_compute. reflexivity. }
  exact (proj2 (raising_handler_changes_nothing _ _ _ H)).
Defined.

Lemma nothing_after_quit_witness :
  sent (run_loop (TH := Toy.cooperative)
                 ([Toy.line "isready"] ++ Toy.line "quit" :: [Toy.line "uci"])
                 (Toy.engine0 (quick_search 1)))
  = sent (run_loop (TH := Toy.cooperative) [Toy.line "isready"]
                   (Toy.engine0 (quick_search 1))).
Proof.
  assert (Hpre : Forall keeps_going [Toy.line "isready"]).
  { repeat constructor; intros H; vm_compute in H; discriminate H. }
  assert (Hraw : Toy.line "quit" <> "").
  { intros H. vm_compute in H. discriminate H. }
  assert (Hq : hd_error (Str.split (Str.strip (Toy.line "quit"))) = Some "quit").
  { vm_compute. reflexivity. }
  destruct (nothing_after_quit (TH := Toy.cooperative)
              [Toy.line "isready"] [Toy.line "uci"] (Toy.line "quit")
              (Toy.engine0 (quick_search 1)) Hpre Hraw Hq) as (_ & _ & H).
  exact H.
Defined.

Lemma position_startpos_any_tokens_witness :
  exists s',
    handle_line (TH := Toy.cooperative)
                "position startpos moves e2e4 zz e2e4"
                (Toy.engine0 (quick_search 1)) = Done false s'
    /\ board s' = ["e2e4"; "e2e4"].
Proof.
  assert (Hs : Str.split "position startpos moves e2e4 zz e2e4"
               = "position" :: "startpos" :: "moves" :: ["e2e4"; "zz"; "e2e4"]).
  { vm_compute. reflexivity. }
  destruct (position_startpos_any_tokens (TH := Toy.cooperative) _ _
              (Toy.engine0 (quick_search 1)) Hs) as (s' & H & Hb & _).
  exists s'. split; [exact H | exact Hb].
Defined.

Lemma position_without_base_witness :
  exists s',
    handle_line (TH := Toy.cooperative) "position moves e7e5" Toy.searching
    = Done false s'
    /\ board s' = ["e2e4"; "e7e5"].
Proof.
  assert (Hs : Str.split "position moves e7e5" = "position" :: "moves" :: ["e7e5"]).
  { vm_compute. reflexivity. }
  destruct (position_without_base (TH := Toy.cooperative) _ _ _ Toy.searching Hs
              ltac:(discriminate) ltac:(discriminate)) as (s' & H & _ & Hb & _).
  exists s'. split; [exact H|].
  rewrite (Hb eq_refl). vm_compute. reflexivity.
Defined.

Lemma position_fen_moves_witness :
  exists s',
    handle_line (TH := Toy.cooperative)
      "position fen rnbqkbnr/pppppppp/8/8/8/8/PPPPPPPP/RNBQKBNR w KQkq - 0 1 moves d2d4"
      Toy.searching = Done false s'
    /\ board s' = ["d2d4"].
Proof.
  pose proof (position_fen_moves (TH := Toy.cooperative)
    "position fen rnbqkbnr/pppppppp/8/8/8/8/PPPPPPPP/RNBQKBNR w KQkq - 0 1 moves d2d4"
    ["rnbqkbnr/pppppppp/8/8/8/8/PPPPPPPP/RNBQKBNR"; "w"; "KQkq"; "-"; "0"; "1"]
    ["d2d4"] Toy.searching eq_refl ltac:(vm_compute; reflexivity)) as H.
  assert (Hfen : board_from_fen
                   (Str.join ["rnbqkbnr/pppppppp/8/8/8/8/PPPPPPPP/RNBQKBNR";
                              "w"; "KQkq"; "-"; "0"; "1"]) = Some []).
  { vm_compute. reflexivity. }
  rewrite Hfen in H. destruct H as (s' & H & Hb & _).
  exists s'. split; [exact H | exact Hb].
Defined.

Lemma limits_hold_known_keys_witness :
  go_entry "depth" (LStr "x")
  \/ ("depth" = "time" /\ exists q, LStr "x" = LFloat q).
Proof.
  apply (limits_hold_known_keys ["wtime"; "1000"; "depth"; "x"]
           (Toy.engine0 (quick_search 1)) _ "depth" (LStr "x") eq_refl).
  vm_compute. reflexivity.
Defined.

Lemma go_time_from_clock_witness :
  exists limits,
    parse_go ["wtime"; "3000"; "btime"; "9000"; "winc"; "50"]
             (Toy.engine0 (quick_search 1)) = Some limits
    /\ Dict.get "time" limits = Some (LFloat (inject_Z 3000 / 1000)).
Proof.
  eexists. split; [reflexivity|].
  exact (proj1 (go_time_from_clock
                  ["wtime"; "3000"; "btime"; "9000"; "winc"; "50"]
                  (Toy.engine0 (quick_search 1)) _ eq_refl)).
Defined.

Lemma go_ignores_unknown_tokens_witness :
  go_tokens (["searchmoves"; "e2e4"] ++ ["nodes"]) [] = [].
Proof.
  assert (Hj : Forall (fun t => go_keyword t = false) ["searchmoves"; "e2e4"]).
  { repeat constructor. }
  exact (proj2 (go_ignores_unknown_tokens ["searchmoves"; "e2e4"]
                  ["depth"; "3"] "nodes" [] Hj eq_refl)).
Defined.

Lemma go_sets_ponder_flag_witness :
  exists s',
    cmd_go (TH := Toy.cooperative) ["ponder"; "wtime"; "1000"]
           (Toy.engine0 (quick_search 1)) = Done tt s'
    /\ ponder s' = true.
Proof.
  eexists. split; [reflexivity|].
  exact (proj1 (go_sets_ponder_flag (TH := Toy.cooperative)
                  ["ponder"; "wtime"; "1000"]
                  (Toy.engine0 (quick_search 1)) _ eq_refl)).
Defined.

Lemma stop_joins_the_worker_of_go_witness :
  exists s',
    cmd_go (TH := Toy.cooperative) ["infinite"] Toy.searching = Done tt s'
    /\ search_thread (cmd_stop (TH := Toy.cooperative) s') = None.
Proof.
  eexists. split; [reflexivity|].
  destruct (stop_joins_the_worker_of_go (TH := Toy.cooperative) ["infinite"]
              Toy.searching _ eq_refl) as (_ & H & _).
  exact H.
Defined.

Lemma calls_inside_window_dropped_witness :
  run_callbacks
    [((102 # 100)%Q, one_move_info ("e2e4" : Move));
     ((1 # 2)%Q, one_move_info ("e2e4" : Move))]
    (set_last_info_time 1 (Toy.engine0 (quick_search 1)))
  = set_last_info_time 1 (Toy.engine0 (quick_search 1)).
Proof.
  apply calls_inside_window_dropped.
  repeat constructor.
Defined.

Lemma quick_search_answers_first_legal_witness :
  exists infos,
    sent (search_worker [] (Toy.engine0 (quick_search 1)))
    = sent (Toy.engine0 (quick_search 1)) ++ infos
      ++ [bestmove_line (fallback_of (board (Toy.engine0 (quick_search 1))))
                        (ponder_move (Toy.engine0 (quick_search 1)))].
Proof.
  destruct (quick_search_answers_first_legal 1 []
              (Toy.engine0 (quick_search 1)) eq_refl eq_refl) as (infos & H & _).
  exists infos. exact H.
Defined.

Lemma setoption_keeps_other_options_witness :
  Dict.get "Dilution"
    (options (cmd_setoption ["name"; "Hash"; "value"; "128"]
                (set_options [("Dilution", Toy.dilution_spin)]
                             (Toy.engine0 (quick_search 1)))))
  = Some Toy.dilution_spin.
Proof.
  destruct (setoption_keeps_other_options
              ["name"; "Hash"; "value"; "128"] "Hash" (Some "128")
              (set_options [("Dilution", Toy.dilution_spin)]
                           (Toy.engine0 (quick_search 1))) eq_refl) as (H & _).
  rewrite (H "Dilution") by discriminate. reflexivity.
Defined.

Lemma setoption_without_name_ignored_witness :
  cmd_setoption ["Hash"; "value"; "128"; "name"; "x"]
                (Toy.engine0 (quick_search 1))
  = Toy.engine0 (quick_search 1).
Proof.
  apply (setoption_without_name_ignored ["Hash"] (Some ["128"; "name"; "x"])).
  repeat constructor; discriminate.
Defined.

End FurtherRuns.
